(** * The dinosaur memory allocator (package [dino])

    A shallow embedding of the worst-fit allocator of the simulator: the
    address space is a Go slice of [*Process]; a cell is either [nil] (free)
    or a pointer to the owning process.  Pointers are modelled as locations
    into a store of processes, so that the aliasing between the cells of a
    range and the process handed to [Allocate] / [ReleaseProcess] is kept.
    Go's [int] is the 64-bit signed integer, with the wrap-around of its
    addition written out.  Runtime panics (nil dereference, index out of
    range, the explicit [panic] of [ReleaseProcess]) are results of their
    own, distinct from returned errors. *)

From Stdlib Require Import ZArith List String Bool Lia.
From stdpp Require Import base tactics option list functions.

Local Open Scope Z_scope.

(** ** Machine integers *)

Module GoInt.

Definition int_min : Z := -9223372036854775808.
Definition int_max : Z := 9223372036854775807.
Definition modulus : Z := 18446744073709551616.

(** Two's complement reduction of a mathematical integer to [int]. *)
Definition wrap (z : Z) : Z := (z - int_min) mod modulus + int_min.

(** [a + b] on [int]. *)
Definition add (a b : Z) : Z := wrap (a + b).

Definition in_range (z : Z) : Prop := int_min <= z <= int_max.

End GoInt.

Notation "a +i b" := (GoInt.add a b) (at level 50, left associativity).

(** ** Data *)

(** A pointer to a [Process]; a possibly-nil [*Process] is an [option loc]. *)
Definition loc := nat.

(** Modelled from the spec: the [Process] struct is declared in another file
    of the package; the allocator uses exactly these five fields. *)
Record Process := mkProcess {
  ID : string;
  Name : string;
  SizeInKB : Z;
  IsAllocated : bool;
  MemoryAddress : Z
}.

(** [type Memory []*Process] *)
Abbreviation Memory := (list (option loc)).

(** The store the pointers point into. *)
Abbreviation Heap := (loc -> Process).

Record State := mkState { mem : Memory; heap : Heap }.

(** [len(m)] *)
Definition len (m : Memory) : Z := Z.of_nat (length m).

(** The field [Name] of the source is [BlockName] here, [Name] being the
    field of [Process]. *)
Record MemoryBlock := mkBlock {
  Start : Z;
  Size : Z;
  BlockName : string
}.

(** [type MemoryLayout []*MemoryBlock] *)
Abbreviation MemoryLayout := (list MemoryBlock).

(** [const FREE_BLOCK = string('▓')]: the UTF-8 encoding of U+2593. *)
Definition FREE_BLOCK : string :=
  String (Ascii.ascii_of_nat 226)
    (String (Ascii.ascii_of_nat 150) (String (Ascii.ascii_of_nat 147) EmptyString)).

(** ** Errors and panics *)

(** One constructor per [errors.New] of the file. *)
Inductive error :=
| NotEnoughSpace      (* There's not enough contiguous free space *)
| NegativeStart       (* Cannot allocate -- start index should be non-negative *)
| OutOfMemoryBound    (* Cannot allocate -- out of memory bound *)
| NilProcessErr       (* Cannot allocate -- nil process *)
| AlreadyInMemory     (* Cannot allocate -- process already in memory *)
| AlreadyOccupied     (* Cannot allocate -- space already occupied *)
| AllocateNoID        (* Cannot allocate -- please assign a (unique) ID ... *)
| ReleaseNoID         (* Please assign a (unique) ID to all your processes ... *)
| UnsafeDelete (ownerID pID : string) (address size : Z).
    (* Unsafe delete -- Memory occupied by another process with ID ..., built
       by Sprintf from m[i].ID, p.ID, p.MemoryAddress and p.SizeInKB *)

(** The error kinds the specification names. *)
Inductive ErrorKind :=
| InsufficientSpace | OutOfBounds | AlreadyAllocated | SpaceOccupied
| MissingIdentity | NilProcess | UnsafeRelease.

Definition kind (e : error) : ErrorKind :=
  match e with
  | NotEnoughSpace => InsufficientSpace
  | NegativeStart | OutOfMemoryBound => OutOfBounds
  | NilProcessErr => NilProcess
  | AlreadyInMemory => AlreadyAllocated
  | AlreadyOccupied => SpaceOccupied
  | AllocateNoID | ReleaseNoID => MissingIdentity
  | UnsafeDelete _ _ _ _ => UnsafeRelease
  end.

Inductive panic :=
| NilDereference                 (* field access through a nil pointer *)
| IndexOutOfRange                (* slice index outside [0, len) *)
| CorruptedMemoryState (e : error). (* panic(errorStr) in ReleaseProcess *)

(** The result of running a piece of Go code: it returns or it panics. *)
Inductive outcome (A : Type) :=
| Ret (a : A)
| Panic (p : panic).
Arguments Ret {A} a.
Arguments Panic {A} p.

#[global] Instance outcome_ret : MRet outcome := fun _ a => Ret a.

#[global] Instance outcome_bind : MBind outcome := fun _ _ f x =>
  match x with
  | Ret a => f a
  | Panic p => Panic p
  end.

(** ** Slice and pointer access *)

(** [m[i]] as an rvalue. *)
Definition get (m : Memory) (i : Z) : outcome (option loc) :=
  if (0 <=? i) && (i <? len m) then
    match m !! Z.to_nat i with
    | Some c => Ret c
    | None => Panic IndexOutOfRange
    end
  else Panic IndexOutOfRange.

(** [m[i] = c] *)
Definition set (m : Memory) (i : Z) (c : option loc) : outcome Memory :=
  if (0 <=? i) && (i <? len m) then Ret (<[Z.to_nat i := c]> m)
  else Panic IndexOutOfRange.

(** [p.f] for a possibly-nil [p]: the location to read the field from. *)
Definition deref (p : option loc) : outcome loc :=
  match p with
  | Some l => Ret l
  | None => Panic NilDereference
  end.

(** The trip count of [for i := start; i < stop; i++], whose body changes
    neither [i] nor [stop]: it runs for [i = start, ..., stop - 1]. *)
Definition trips (start stop : Z) : nat := Z.to_nat (stop - start).

(** ** The allocator *)

(** *** WorstFit *)

Record scan := mkScan {
  bestStart : Z;
  bestSize : Z;
  currentStart : Z;
  currentSize : Z;
  previousWasEmpty : bool
}.

Definition scan_init : scan := mkScan (-1) 0 (-1) 0 false.

(** One iteration of the [for i := range m] loop of [WorstFit]. *)
Definition WorstFit_body (c : option loc) (i : Z) (s : scan) : scan :=
  match c with
  | None =>
      if negb (previousWasEmpty s)
      then mkScan (bestStart s) (bestSize s) i 1 true
      else mkScan (bestStart s) (bestSize s) (currentStart s)
                  (currentSize s +i 1) (previousWasEmpty s)
  | Some _ =>
      if previousWasEmpty s
      then if currentSize s >? bestSize s
           then mkScan (currentStart s) (currentSize s)
                       (currentStart s) (currentSize s) false
           else mkScan (bestStart s) (bestSize s)
                       (currentStart s) (currentSize s) false
      else s
  end.

Fixpoint WorstFit_loop (cells : list (option loc)) (i : Z) (s : scan) : scan :=
  match cells with
  | [] => s
  | c :: rest => WorstFit_loop rest (i + 1) (WorstFit_body c i s)
  end.

Definition WorstFit (m : Memory) (sizeToFit : Z) : Z * Z * option error :=
  let s := WorstFit_loop m 0 scan_init in
  let '(bStart, bSize) :=
    if currentSize s >? bestSize s
    then (currentStart s, currentSize s)
    else (bestStart s, bestSize s) in
  let err := if sizeToFit >? bSize then Some NotEnoughSpace else None in
  (bStart, bSize, err).

Definition HasSpace (m : Memory) (size : Z) : bool :=
  match WorstFit m size with
  | (_, _, None) => true
  | (_, _, Some _) => false
  end.

(** *** checkBounds and isEmpty *)

Definition checkBounds (m : Memory) (start offset : Z) : option error :=
  if start <? 0 then Some NegativeStart
  else if start +i offset >? len m then Some OutOfMemoryBound
  else None.

Fixpoint isEmpty_loop (m : Memory) (i : Z) (n : nat) : outcome bool :=
  match n with
  | O => Ret true
  | S n' =>
      c ← get m i;
      match c with
      | Some _ => Ret false
      | None => isEmpty_loop m (i +i 1) n'
      end
  end.

Definition isEmpty (m : Memory) (start offset : Z) : outcome bool :=
  match checkBounds m start offset with
  | Some _ => Ret false
  | None => isEmpty_loop m start (trips start (start +i offset))
  end.

(** *** Allocate *)

(** [p.IsAllocated = b; p.MemoryAddress = a] *)
Definition set_allocation (pr : Process) (b : bool) (a : Z) : Process :=
  mkProcess (ID pr) (Name pr) (SizeInKB pr) b a.

(** [for i := start; i < start+p.SizeInKB; i++ { m[i] = p }] *)
Fixpoint Allocate_loop (m : Memory) (p : option loc) (i : Z) (n : nat)
  : outcome Memory :=
  match n with
  | O => Ret m
  | S n' => m' ← set m i p; Allocate_loop m' p (i +i 1) n'
  end.

Definition Allocate (st : State) (p : option loc) (start : Z)
  : outcome (State * option error) :=
  match p with
  | None => Ret (st, Some NilProcessErr)
  | Some l =>
      let pr := heap st l in
      if IsAllocated pr then Ret (st, Some AlreadyInMemory)
      else match checkBounds (mem st) start (SizeInKB pr) with
      | Some e => Ret (st, Some e)
      | None =>
          free ← isEmpty (mem st) start (SizeInKB pr);
          if negb free then Ret (st, Some AlreadyOccupied)
          else if String.eqb (ID pr) EmptyString then Ret (st, Some AllocateNoID)
          else
            m' ← Allocate_loop (mem st) p start
                   (trips start (start +i SizeInKB pr));
            Ret (mkState m' (<[l := set_allocation pr true start]> (heap st)),
                 None)
      end
  end.

Definition AllocateWorstFit (st : State) (p : option loc)
  : outcome (State * option error) :=
  match p with
  | None => Ret (st, Some NilProcessErr)
  | Some l =>
      match WorstFit (mem st) (SizeInKB (heap st l)) with
      | (_, _, Some e) => Ret (st, Some e)
      | (start, _, None) => Allocate st p start
      end
  end.

(** *** Release *)

Fixpoint hardRelease_loop (m : Memory) (i : Z) (n : nat) : outcome Memory :=
  match n with
  | O => Ret m
  | S n' => m' ← set m i None; hardRelease_loop m' (i +i 1) n'
  end.

Definition hardRelease (m : Memory) (start offset : Z)
  : outcome (Memory * option error) :=
  match checkBounds m start offset with
  | Some e => Ret (m, Some e)
  | None =>
      m' ← hardRelease_loop m start (trips start (start +i offset));
      Ret (m', None)
  end.

(** The loop of [ReleaseProcess].  The result carries the memory, the flag
    [beenReleased], and the error of the early [return false, err] if the
    loop was left that way. *)
Fixpoint Release_loop (h : Heap) (l : loc) (m : Memory) (beenReleased : bool)
    (i : Z) (n : nat) : outcome (Memory * bool * option error) :=
  match n with
  | O => Ret (m, beenReleased, None)
  | S n' =>
      c ← get m i;
      q ← deref c;
      if String.eqb (ID (h q)) (ID (h l)) then
        m' ← set m i None;
        Release_loop h l m' true (i +i 1) n'
      else
        let e := UnsafeDelete (ID (h q)) (ID (h l))
                              (MemoryAddress (h l)) (SizeInKB (h l)) in
        if negb beenReleased then Ret (m, beenReleased, Some e)
        else Panic (CorruptedMemoryState e)
  end.

Definition ReleaseProcess (st : State) (p : option loc)
  : outcome (State * bool * option error) :=
  l ← deref p;
  let start := MemoryAddress (heap st l) in
  let offset := SizeInKB (heap st l) in
  match checkBounds (mem st) start offset with
  | Some e => Ret (st, false, Some e)
  | None =>
      if String.eqb (ID (heap st l)) EmptyString
      then Ret (st, false, Some ReleaseNoID)
      else
        r ← Release_loop (heap st) l (mem st) false start
              (trips start (start +i offset));
        match r with
        | (m', _, Some e) => Ret (mkState m' (heap st), false, Some e)
        | (m', beenReleased, None) =>
            Ret (mkState m'
                   (<[l := set_allocation (heap st l) false (-1)]> (heap st)),
                 beenReleased, None)
        end
  end.

(** *** Layout and TotalFree *)

(** [currentBlock.Size++], [currentBlock] being the index of the block of
    [layout] the pointer refers to. *)
Definition bump (layout : MemoryLayout) (currentBlock : option nat)
  : outcome MemoryLayout :=
  match currentBlock with
  | None => Panic NilDereference
  | Some j =>
      Ret (alter (fun b => mkBlock (Start b) (Size b +i 1) (BlockName b)) j layout)
  end.

(** The guard [m[i] != nil && i == 0 || m[i-1] != m[i]], left to right with
    short-circuit evaluation. *)
Definition starts_nonempty (m : Memory) (c : option loc) (i : Z) : outcome bool :=
  if bool_decide (c <> None) && (i =? 0) then Ret true
  else prev ← get m (i +i (-1)); Ret (bool_decide (prev <> c)).

Fixpoint Layout_loop (st : State) (cells : list (option loc)) (i : Z)
    (layout : MemoryLayout) (currentBlock : option nat)
    (previousWasEmpty : bool) : outcome MemoryLayout :=
  match cells with
  | [] => Ret layout
  | c :: rest =>
      if bool_decide (c = None) && negb previousWasEmpty then
        let layout1 := layout ++ [mkBlock i 0 FREE_BLOCK] in
        let current1 := Some (length layout) in
        layout2 ← bump layout1 current1;
        Layout_loop st rest (i + 1) layout2 current1 true
      else
        b ← starts_nonempty (mem st) c i;
        if b : bool then
          q ← deref c;
          let layout1 := layout ++ [mkBlock i 0 (Name (heap st q))] in
          let current1 := Some (length layout) in
          layout2 ← bump layout1 current1;
          Layout_loop st rest (i + 1) layout2 current1 false
        else
          layout2 ← bump layout currentBlock;
          Layout_loop st rest (i + 1) layout2 currentBlock previousWasEmpty
  end.

Definition Layout (st : State) : outcome MemoryLayout :=
  Layout_loop st (mem st) 0 [] None false.

Fixpoint TotalFree_loop (cells : list (option loc)) (total : Z) : Z :=
  match cells with
  | [] => total
  | None :: rest => TotalFree_loop rest (total +i 1)
  | Some _ :: rest => TotalFree_loop rest total
  end.

Definition TotalFree (m : Memory) : Z := TotalFree_loop m 0.

(** ** Scenario A of the specification, run on the model *)

Module ScenarioA.

Definition P1 : Process := mkProcess "p1" "P1" 3 false (-1).
Definition P2 : Process := mkProcess "p2" "P2" 4 false (-1).
Definition P3 : Process := mkProcess "p3" "P3" 4 false (-1).

Definition procs : Heap :=
  fun l => match l with O => P1 | S O => P2 | _ => P3 end.

Definition st0 : State := mkState (replicate 10 None) procs.

End ScenarioA.

(** ** Sequences of operations *)

(** The mutating public operations, on a non-nil process. *)
Inductive op :=
| OpAllocate (l : loc) (start : Z)
| OpAllocateWorstFit (l : loc)
| OpReleaseProcess (l : loc).

Definition op_process (o : op) : loc :=
  match o with
  | OpAllocate l _ | OpAllocateWorstFit l | OpReleaseProcess l => l
  end.

(** The state after an operation that returned without an error. *)
Definition step (st : State) (o : op) : option State :=
  match o with
  | OpAllocate l start =>
      match Allocate st (Some l) start with
      | Ret (st', None) => Some st'
      | _ => None
      end
  | OpAllocateWorstFit l =>
      match AllocateWorstFit st (Some l) with
      | Ret (st', None) => Some st'
      | _ => None
      end
  | OpReleaseProcess l =>
      match ReleaseProcess st (Some l) with
      | Ret (st', _, None) => Some st'
      | _ => None
      end
  end.

(** The state after a sequence of operations that all returned without an
    error. *)
Fixpoint run (st : State) (ops : list op) : option State :=
  match ops with
  | [] => Some st
  | o :: rest =>
      match step st o with
      | Some st' => run st' rest
      | None => None
      end
  end.

(** The all-free address space of [n] cells. *)
Definition all_free_state (n : nat) (h : Heap) : State :=
  mkState (replicate n None) h.

(** The number of free cells. *)
Fixpoint free_cells (m : Memory) : Z :=
  match m with
  | [] => 0
  | None :: rest => 1 + free_cells rest
  | Some _ :: rest => free_cells rest
  end.

(** What a process counts for in the sum of the sizes of the allocated
    processes. *)
Definition occupied (pr : Process) : Z :=
  if IsAllocated pr then SizeInKB pr else 0.

(** The sum of [SizeInKB] over the allocated processes among [ps]. *)
Fixpoint allocated_total (ps : list loc) (h : Heap) : Z :=
  match ps with
  | [] => 0
  | l :: rest => occupied (h l) + allocated_total rest h
  end.

(** ** Small states used as concrete inputs *)

Module Examples.

(** Two cells; the process at location 0 records the range [[0, 2)]. *)
Definition owner_a : Process := mkProcess "a" "A" 2 true 0.
Definition owner_b : Process := mkProcess "b" "B" 1 true 0.
Definition two : Heap := fun l => match l with O => owner_a | _ => owner_b end.

(** The first cell of the range of [a] belongs to [b]. *)
Definition stale_start : State := mkState [Some 1%nat; Some 0%nat] two.

(** The second cell of the range of [a] belongs to [b]. *)
Definition stale_tail : State := mkState [Some 0%nat; Some 1%nat] two.

(** A process value as Go creates it when only [ID], [Name] and [SizeInKB]
    are given: [IsAllocated] is false and [MemoryAddress] is 0. *)
Definition fresh : Process := mkProcess "a" "A" 1 false 0.
Definition one_free : State := mkState [None] (fun _ => fresh).

(** A process without an ID that was never placed. *)
Definition anonymous : Process := mkProcess "" "A" 1 false (-1).
Definition one_free_anonymous : State := mkState [None] (fun _ => anonymous).

(** One cell, owned by the process at location 0. *)
Definition placed : Process := mkProcess "a" "A" 1 true 0.
Definition one_owned : State := mkState [Some 0%nat] (fun _ => placed).

End Examples.

(** ** Vocabulary of the properties *)

(** The content of cell [i], if [i] is an index of the address space. *)
Definition cell (m : Memory) (i : Z) : option (option loc) :=
  if 0 <=? i then m !! Z.to_nat i else None.

(** A Go slice has at most [int_max] elements. *)
Definition valid_len (m : Memory) : Prop := len m <= GoInt.int_max.

(** Every cell of [[s, s+l)] exists and is free. *)
Definition all_free (m : Memory) (s l : Z) : Prop :=
  forall i, s <= i < s + l -> cell m i = Some None.

(** [[s, s+l)] is a non-empty contiguous range of free cells. *)
Definition free_run (m : Memory) (s l : Z) : Prop :=
  1 <= l /\ all_free m s l.

(** [(bs, bsz)] is the earliest longest free run among those that end at or
    before [B]; [(-1, 0)] when there is none. *)
Definition best_upto (m : Memory) (B bs bsz : Z) : Prop :=
  (forall s l, free_run m s l -> s + l <= B ->
     l <= bsz /\ (l = bsz -> bs <= s)) /\
  ((bsz = 0 /\ bs = -1) \/ (free_run m bs bsz /\ bs + bsz <= B)).

(** The invariant of the scan of [WorstFit] after [k] cells. *)
Definition scan_inv (m : Memory) (k : Z) (s : scan) : Prop :=
  if previousWasEmpty s then
    0 <= currentStart s /\ currentStart s < k /\
    currentSize s = k - currentStart s /\
    all_free m (currentStart s) (currentSize s) /\
    cell m (currentStart s - 1) <> Some None /\
    best_upto m (currentStart s) (bestStart s) (bestSize s)
  else
    currentSize s <= bestSize s /\
    cell m (k - 1) <> Some None /\
    best_upto m k (bestStart s) (bestSize s).

(** The name [Layout] gives to a block whose cells hold [c]. *)
Definition owner_name (st : State) (c : option loc) : string :=
  match c with
  | None => FREE_BLOCK
  | Some q => Name (heap st q)
  end.

(** [blocks] is the run-length encoding of the cells [[from, to)], left to
    right: every block starts where the previous one ends, at index 0 or at a
    change of owner; it has at least one cell; its cells all hold the same
    content, and it carries the name of that content.  Since the next block
    starts at a change of owner, every block is a maximal run. *)
Fixpoint tiles (st : State) (from : Z) (blocks : MemoryLayout) (to : Z) : Prop :=
  match blocks with
  | [] => from = to
  | b :: rest =>
      Start b = from /\ 1 <= Size b /\
      (exists c, (forall i, from <= i < from + Size b ->
                    cell (mem st) i = Some c) /\
                 BlockName b = owner_name st c) /\
      (from = 0 \/ cell (mem st) (from - 1) <> cell (mem st) from) /\
      tiles st (from + Size b) rest to
  end.

(** ** The invariant of the address space

    [ps] are the processes of the simulation, [h0] their initial values and
    [N] the length of the address space. *)

(** The operations never touch the identity, the name or the size. *)
Definition same_identity (h0 h : Heap) : Prop :=
  forall l, ID (h l) = ID (h0 l) /\ Name (h l) = Name (h0 l) /\
            SizeInKB (h l) = SizeInKB (h0 l).

(** The owner of an occupied cell is an allocated process of the simulation
    whose recorded range holds the cell. *)
Definition owners_allocated (ps : list loc) (st : State) : Prop :=
  forall i q, cell (mem st) i = Some (Some q) ->
    In q ps /\ IsAllocated (heap st q) = true /\
    MemoryAddress (heap st q) <= i
      < MemoryAddress (heap st q) + SizeInKB (heap st q).

(** The recorded range of an allocated process lies in the address space and
    each of its cells refers to the process. *)
Definition ranges_owned (ps : list loc) (N : Z) (st : State) : Prop :=
  forall l, In l ps -> IsAllocated (heap st l) = true ->
    0 <= MemoryAddress (heap st l) /\
    MemoryAddress (heap st l) + SizeInKB (heap st l) <= N /\
    forall i, MemoryAddress (heap st l) <= i
                < MemoryAddress (heap st l) + SizeInKB (heap st l) ->
              cell (mem st) i = Some (Some l).

Record inv (ps : list loc) (h0 : Heap) (N : Z) (st : State) : Prop := mkInv {
  inv_len : len (mem st) = N;
  inv_identity : same_identity h0 (heap st);
  inv_owners : owners_allocated ps st;
  inv_ranges : ranges_owned ps N st;
  inv_count : free_cells (mem st) + allocated_total ps (heap st) = N
}.

(** An operation on a process of the simulation; for [Allocate], the sum of
    the start and the size is in the range of [int]. *)
Definition op_ok (ps : list loc) (h0 : Heap) (o : op) : Prop :=
  In (op_process o) ps /\
  match o with
  | OpAllocate l start => GoInt.in_range (start + SizeInKB (h0 l))
  | _ => True
  end.

(** What a cell counts for among the free cells. *)
Definition is_free (c : option loc) : Z :=
  match c with None => 1 | Some _ => 0 end.

(** ** The memory picture of the display

    The loop of [draw] in main.go that builds the text of the memory pane
    from [d.Memory], taken to be the [Memory] of the allocator: a line break
    before every tenth cell, then ["X"] for an occupied cell and ["-"] for a
    free one. *)

Definition newline : string := String (Ascii.ascii_of_nat 10) EmptyString.

Definition mark (c : option loc) : string :=
  match c with
  | Some _ => "X"
  | None => "-"
  end.

Fixpoint memString_loop (cells : list (option loc)) (i : Z) (memString : string)
  : string :=
  match cells with
  | [] => memString
  | c :: rest =>
      let memString1 :=
        if Z.rem i 10 =? 0 then (memString ++ newline)%string else memString in
      memString_loop rest (i + 1) (memString1 ++ mark c)%string
  end.

Definition memString (m : Memory) : string := memString_loop m 0 EmptyString.

(** ** Measures of a layout *)

(** The sum of the sizes of the blocks. *)
Fixpoint total_size (L : MemoryLayout) : Z :=
  match L with
  | [] => 0
  | b :: rest => Size b + total_size rest
  end.

(** The sum of the sizes of the blocks that carry the free marker. *)
Fixpoint free_size (L : MemoryLayout) : Z :=
  match L with
  | [] => 0
  | b :: rest =>
      (if String.eqb (BlockName b) FREE_BLOCK then Size b else 0)
      + free_size rest
  end.

(** A process that is not allocated records the address -1, and an allocated
    one has an ID. *)
Definition bookkeeping (ps : list loc) (h : Heap) : Prop :=
  forall l, In l ps ->
    (IsAllocated (h l) = false -> MemoryAddress (h l) = -1) /\
    (IsAllocated (h l) = true -> ID (h l) <> EmptyString).

(** The place of the mark of cell [i] in the memory picture. *)
Definition mark_position (i : Z) : nat := Z.to_nat (i + i / 10 + 1).

(** * Properties *)

(** ** Machine integers *)

Lemma wrap_in_range z : GoInt.in_range (GoInt.wrap z).
Proof.
  unfold GoInt.in_range, GoInt.wrap, GoInt.int_min, GoInt.int_max, GoInt.modulus.
  pose proof (Z.mod_pos_bound (z - -9223372036854775808) 18446744073709551616).
  lia.
Qed.

Lemma wrap_small z : GoInt.in_range z -> GoInt.wrap z = z.
Proof.
  unfold GoInt.in_range, GoInt.wrap, GoInt.int_min, GoInt.int_max, GoInt.modulus.
  intros H. rewrite Z.mod_small; lia.
Qed.

Lemma add_small a b : GoInt.in_range (a + b) -> a +i b = a + b.
Proof. apply wrap_small. Qed.

(** ** Cells *)

Lemma cell_Some m i c :
  cell m i = Some c <-> 0 <= i /\ m !! Z.to_nat i = Some c.
Proof.
  unfold cell. destruct (Z.leb_spec 0 i); split; intros H0.
  - auto.
  - tauto.
  - discriminate.
  - lia.
Qed.

Lemma cell_lt_len m i c : cell m i = Some c -> 0 <= i < len m.
Proof.
  intros [Hi Hl]%cell_Some. apply lookup_lt_Some in Hl. unfold len. lia.
Qed.

Lemma cell_is_Some m i : 0 <= i < len m -> exists c, cell m i = Some c.
Proof.
  intros Hi. destruct (lookup_lt_is_Some_2 m (Z.to_nat i)) as [c Hc].
  { unfold len in Hi. lia. }
  exists c. apply cell_Some. split; [lia | done].
Qed.

Lemma cell_neg m i : i < 0 -> cell m i = None.
Proof. unfold cell. intros Hi. destruct (Z.leb_spec 0 i); [lia | done]. Qed.

Lemma get_Ret m i c : cell m i = Some c -> get m i = Ret c.
Proof.
  intros Hc. pose proof (cell_lt_len _ _ _ Hc) as Hi.
  apply cell_Some in Hc as [_ Hc]. unfold get.
  destruct (Z.leb_spec 0 i); [|lia]. destruct (Z.ltb_spec i (len m)); [|lia].
  simpl. by rewrite Hc.
Qed.

Lemma cell_drop m k c rest :
  0 <= k -> drop (Z.to_nat k) m = c :: rest ->
  cell m k = Some c /\ drop (Z.to_nat (k + 1)) m = rest /\ k < len m.
Proof.
  intros Hk Hd.
  assert (m !! Z.to_nat k = Some c) as Hl.
  { rewrite <- (Nat.add_0_r (Z.to_nat k)), <- lookup_drop, Hd. done. }
  split; [by apply cell_Some|]. split.
  - replace (Z.to_nat (k + 1)) with (S (Z.to_nat k)) by lia.
    change (S (Z.to_nat k)) with (1 + Z.to_nat k)%nat.
    rewrite Nat.add_comm, <- drop_drop, Hd. done.
  - apply lookup_lt_Some in Hl. unfold len. lia.
Qed.

(** ** WorstFit: the scan finds the earliest longest free run *)

Lemma best_upto_occupied m k bs bsz :
  best_upto m k bs bsz -> cell m k <> Some None ->
  best_upto m (k + 1) bs bsz.
Proof.
  intros [Hmax Hbest] Hocc. split.
  - intros s l [Hl Hfree] Hend.
    destruct (Z.eq_dec (s + l) (k + 1)) as [E | E].
    + exfalso. apply Hocc, Hfree. lia.
    + apply Hmax; [done | lia].
  - destruct Hbest as [? | [? ?]]; [by left | right; split; [done | lia]].
Qed.

Lemma best_upto_merge m cs n bs bsz :
  best_upto m cs bs bsz -> 1 <= n -> all_free m cs n ->
  cell m (cs - 1) <> Some None ->
  best_upto m (cs + n)
    (if n >? bsz then cs else bs) (if n >? bsz then n else bsz).
Proof.
  intros [Hmax Hbest] Hn Hfree Hocc.
  assert (forall s l, free_run m s l -> s + l <= cs + n ->
            s + l <= cs \/ (cs <= s /\ l <= n)) as Hsplit.
  { intros s l [Hl Hf] Hend.
    destruct (Z.le_gt_cases (s + l) cs); [by left | right].
    destruct (Z.le_gt_cases cs s); [lia |].
    exfalso. apply Hocc, Hf. lia. }
  destruct (Z.gtb_spec n bsz) as [Hgt | Hle]; split.
  - intros s l Hrun Hend.
    destruct (Hsplit s l Hrun Hend) as [Hin | [Hs Hl]].
    + destruct (Hmax s l Hrun Hin). lia.
    + lia.
  - right. split; [by split | lia].
  - intros s l Hrun Hend.
    destruct (Hsplit s l Hrun Hend) as [Hin | [Hs Hl]].
    + by apply Hmax.
    + split; [lia |]. intros ->.
      destruct Hbest as [[? ?] | [_ ?]]; [destruct Hrun; lia | lia].
  - destruct Hbest as [? | [? ?]]; [by left | right; split; [done | lia]].
Qed.

Lemma all_free_snoc m s l :
  0 <= l -> all_free m s l -> cell m (s + l) = Some None ->
  all_free m s (l + 1).
Proof.
  intros Hl Hfree Hc i Hi.
  destruct (Z.eq_dec i (s + l)) as [-> | Hne]; [done | apply Hfree; lia].
Qed.

Lemma scan_inv_init m : scan_inv m 0 scan_init.
Proof.
  unfold scan_inv, scan_init; simpl. split; [lia |]. split.
  - by rewrite cell_neg.
  - split; [| by left].
    intros s l [Hl Hfree] Hend. exfalso.
    assert (cell m s = Some None) as Hc by (apply Hfree; lia).
    assert (cell m (s + l - 1) = Some None) as Hc' by (apply Hfree; lia).
    apply cell_lt_len in Hc, Hc'. lia.
Qed.

Lemma scan_inv_step m k c s :
  valid_len m -> cell m k = Some c -> scan_inv m k s ->
  scan_inv m (k + 1) (WorstFit_body c k s).
Proof.
  intros Hvalid Hc Hinv. pose proof (cell_lt_len _ _ _ Hc) as Hk.
  unfold scan_inv in *. unfold WorstFit_body.
  destruct c as [q |], (previousWasEmpty s) eqn:Hprev; simpl.
  - (* a free run just ended *)
    destruct Hinv as (Hcs0 & Hcsk & Hsz & Hfree & Hocc & Hbest).
    assert (cell m k <> Some None) as Hk' by (rewrite Hc; discriminate).
    assert (1 <= currentSize s) as Hpos by lia.
    pose proof (best_upto_merge _ _ _ _ _ Hbest Hpos Hfree Hocc) as Hm.
    replace (currentStart s + currentSize s) with k in Hm by lia.
    apply best_upto_occupied in Hm; [| done].
    replace (k + 1 - 1) with k by lia.
    destruct (Z.gtb_spec (currentSize s) (bestSize s)); simpl;
      (split; [lia | split; [done | done]]).
  - (* still inside occupied cells *)
    rewrite Hprev. destruct Hinv as (Hsz & Hocc & Hbest).
    replace (k + 1 - 1) with k by lia.
    split; [done |]. split; [rewrite Hc; discriminate |].
    apply best_upto_occupied; [done | rewrite Hc; discriminate].
  - (* a free run is continued *)
    destruct Hinv as (Hcs0 & Hcsk & Hsz & Hfree & Hocc & Hbest).
    rewrite add_small.
    2:{ unfold valid_len in Hvalid.
        unfold GoInt.in_range, GoInt.int_min, GoInt.int_max in *. lia. }
    split; [done |]. split; [lia |]. split; [lia |].
    split; [| done].
    apply all_free_snoc; [lia | done |].
    by replace (currentStart s + currentSize s) with k by lia.
  - (* a free run starts *)
    destruct Hinv as (Hsz & Hocc & Hbest).
    split; [lia |]. split; [lia |]. split; [lia |].
    split; [| done].
    intros i Hi. by replace i with k by lia.
Qed.

Lemma drop_all_len (m : Memory) k :
  0 <= k <= len m -> drop (Z.to_nat k) m = [] -> k = len m.
Proof.
  intros Hk Hdrop.
  assert (length (drop (Z.to_nat k) m) = 0%nat) as Hlen by (by rewrite Hdrop).
  rewrite length_drop in Hlen. unfold len in *. lia.
Qed.

Lemma scan_inv_loop m rest : forall k s,
  valid_len m -> 0 <= k <= len m -> drop (Z.to_nat k) m = rest ->
  scan_inv m k s -> scan_inv m (len m) (WorstFit_loop rest k s).
Proof.
  induction rest as [| c rest IH]; intros k s Hvalid Hk Hdrop Hinv; simpl.
  - by rewrite <- (drop_all_len m k).
  - destruct (cell_drop _ _ _ _ (proj1 Hk) Hdrop) as (Hc & Hdrop' & Hlt).
    apply IH; [done | lia | done |]. by apply scan_inv_step.
Qed.

Lemma WorstFit_best m size :
  valid_len m ->
  exists bs bsz,
    WorstFit m size =
      (bs, bsz, if size >? bsz then Some NotEnoughSpace else None) /\
    best_upto m (len m) bs bsz.
Proof.
  intros Hvalid.
  assert (0 <= 0 <= len m) as H0 by (unfold len; lia).
  pose proof (scan_inv_loop m m 0 scan_init Hvalid H0 eq_refl (scan_inv_init m))
    as Hinv.
  unfold WorstFit. set (s := WorstFit_loop m 0 scan_init) in *.
  unfold scan_inv in Hinv. destruct (previousWasEmpty s) eqn:Hprev.
  - destruct Hinv as (Hcs0 & Hcsk & Hsz & Hfree & Hocc & Hbest).
    assert (1 <= currentSize s) as Hpos by lia.
    pose proof (best_upto_merge _ _ _ _ _ Hbest Hpos Hfree Hocc) as Hm.
    replace (currentStart s + currentSize s) with (len m) in Hm by lia.
    destruct (currentSize s >? bestSize s); eauto.
  - destruct Hinv as (Hsz & Hocc & Hbest).
    destruct (Z.gtb_spec (currentSize s) (bestSize s)); [lia | eauto].
Qed.

Lemma free_run_in_len m s l : free_run m s l -> 0 <= s /\ s + l <= len m.
Proof.
  intros [Hl Hfree].
  assert (cell m s = Some None) as Hc by (apply Hfree; lia).
  assert (cell m (s + l - 1) = Some None) as Hc' by (apply Hfree; lia).
  apply cell_lt_len in Hc, Hc'. lia.
Qed.

(** C1 (amended): on a memory with a free cell, [WorstFit] returns the
    earliest of the longest contiguous free runs, also when it fails; on a
    memory without a free cell it returns start [-1] and size [0]; it fails
    with [NotEnoughSpace], an [InsufficientSpace] error, exactly when the
    size it returns is smaller than the size asked for. *)
Theorem WorstFit_largest_run (m : Memory) (size : Z) :
  valid_len m ->
  exists start found err,
    WorstFit m size = (start, found, err) /\
    (err = Some NotEnoughSpace <-> found < size) /\
    (err = None <-> size <= found) /\
    ((exists i, cell m i = Some None) ->
       free_run m start found /\
       forall s l, free_run m s l ->
         l <= found /\ (l = found -> start <= s)) /\
    ((forall i, cell m i <> Some None) -> start = -1 /\ found = 0).
Proof.
  intros Hvalid.
  destruct (WorstFit_best m size Hvalid) as (bs & bsz & HW & Hmax & Hbest).
  exists bs, bsz, (if size >? bsz then Some NotEnoughSpace else None).
  split; [done |].
  split; [destruct (Z.gtb_spec size bsz); split; (done || lia) |].
  split; [destruct (Z.gtb_spec size bsz); split; (done || lia) |].
  assert (forall s l, free_run m s l -> l <= bsz /\ (l = bsz -> bs <= s)) as Hall.
  { intros s l Hrun. apply Hmax; [done |]. by apply free_run_in_len. }
  split.
  - intros [i Hi]. split; [| done].
    destruct Hbest as [[-> ->] | [Hrun _]]; [| done].
    exfalso. assert (free_run m i 1) as Hrun.
    { split; [lia |]. intros j Hj. by replace j with i by lia. }
    apply Hall in Hrun. lia.
  - intros Hfull. destruct Hbest as [[-> ->] | [[Hl Hfree] _]]; [done |].
    exfalso. apply (Hfull bs), Hfree. lia.
Qed.

Lemma WorstFit_largest_run_witness :
  valid_len [None; Some 0%nat; None; None] /\
  exists start found err,
    WorstFit [None; Some 0%nat; None; None] 2 = (start, found, err) /\
    (err = Some NotEnoughSpace <-> found < 2) /\
    (err = None <-> 2 <= found) /\
    ((exists i, cell [None; Some 0%nat; None; None] i = Some None) ->
       free_run [None; Some 0%nat; None; None] start found /\
       forall s l, free_run [None; Some 0%nat; None; None] s l ->
         l <= found /\ (l = found -> start <= s)) /\
    ((forall i, cell [None; Some 0%nat; None; None] i <> Some None) ->
       start = -1 /\ found = 0).
Proof.
  assert (valid_len [None; Some 0%nat; None; None]) as Hvalid.
  { unfold valid_len, len, GoInt.int_max. simpl. lia. }
  split; [exact Hvalid |].
  exact (WorstFit_largest_run [None; Some 0%nat; None; None] 2 Hvalid).
Defined.

(** C1 as stated fails on a memory without a free cell: the start returned
    is [-1], which is the start of no free run. *)
Lemma WorstFit_full_memory :
  WorstFit [Some 0%nat] 1 = (-1, 0, Some NotEnoughSpace) /\
  forall l, ~ free_run [Some 0%nat] (-1) l.
Proof.
  split; [reflexivity |]. intros l [Hl Hfree].
  specialize (Hfree (-1) ltac:(lia)). discriminate.
Qed.

(** [HasSpace] tells whether a free run of at least [size] cells exists. *)
Lemma HasSpace_spec m size :
  valid_len m -> 0 < size ->
  HasSpace m size = true <-> exists s l, free_run m s l /\ size <= l.
Proof.
  intros Hvalid Hsize. unfold HasSpace.
  destruct (WorstFit_best m size Hvalid) as (bs & bsz & -> & Hmax & Hbest).
  destruct (Z.gtb_spec size bsz) as [Hgt | Hle]; split; try done.
  - intros (s & l & Hrun & Hl).
    destruct (Hmax s l Hrun) as [? _]; [by apply free_run_in_len | lia].
  - intros _. destruct Hbest as [[-> _] | [Hrun _]]; [lia | eauto].
Qed.

(** ** The scenarios of the specification *)

Example scenario_A_WorstFit :
  WorstFit (mem ScenarioA.st0) 5 = (0, 10, None).
Proof. reflexivity. Qed.

Example scenario_B_Layout :
  exists st1 st2,
    Allocate ScenarioA.st0 (Some 0%nat) 0 = Ret (st1, None) /\
    AllocateWorstFit st1 (Some 1%nat) = Ret (st2, None) /\
    Layout st2 = Ret [mkBlock 0 3 "P1"; mkBlock 3 4 "P2"; mkBlock 7 3 FREE_BLOCK].
Proof. eexists _, _. repeat split; reflexivity. Qed.

Example scenario_C_no_space :
  exists st1 st2,
    Allocate ScenarioA.st0 (Some 0%nat) 0 = Ret (st1, None) /\
    AllocateWorstFit st1 (Some 1%nat) = Ret (st2, None) /\
    WorstFit (mem st2) 4 = (7, 3, Some NotEnoughSpace) /\
    AllocateWorstFit st2 (Some 2%nat) = Ret (st2, Some NotEnoughSpace) /\
    HasSpace (mem st2) 4 = false /\ HasSpace (mem st2) 3 = true.
Proof. eexists _, _. repeat split; reflexivity. Qed.

Example scenario_D_release :
  exists st1 st2 st3,
    Allocate ScenarioA.st0 (Some 0%nat) 0 = Ret (st1, None) /\
    AllocateWorstFit st1 (Some 1%nat) = Ret (st2, None) /\
    ReleaseProcess st2 (Some 0%nat) = Ret (st3, true, None) /\
    TotalFree (mem st3) = TotalFree (mem st2) + 3 /\
    IsAllocated (heap st3 0%nat) = false.
Proof. eexists _, _, _. repeat split; reflexivity. Qed.

(** ** Bounds check, writes, and the loops over a range *)

Lemma checkBounds_None m start offset :
  checkBounds m start offset = None <->
  0 <= start /\ start +i offset <= len m.
Proof.
  unfold checkBounds. destruct (Z.ltb_spec start 0).
  - split; [done | lia].
  - destruct (Z.gtb_spec (start +i offset) (len m)); split; (done || lia).
Qed.

Lemma checkBounds_kind m start offset e :
  checkBounds m start offset = Some e -> kind e = OutOfBounds.
Proof.
  unfold checkBounds. destruct (start <? 0); [by intros [= <-] |].
  destruct (start +i offset >? len m); [by intros [= <-] | done].
Qed.

Lemma set_Ret m i c :
  0 <= i < len m -> set m i c = Ret (<[Z.to_nat i := c]> m).
Proof.
  intros Hi. unfold set.
  destruct (Z.leb_spec 0 i); [| lia]. destruct (Z.ltb_spec i (len m)); [| lia].
  done.
Qed.

Lemma len_insert (m : Memory) n c : len (<[n := c]> m) = len m.
Proof. unfold len. by rewrite length_insert. Qed.

Lemma cell_insert_eq (m : Memory) i c :
  0 <= i < len m -> cell (<[Z.to_nat i := c]> m) i = Some c.
Proof.
  intros Hi. apply cell_Some. split; [lia |].
  apply list_lookup_insert_eq. unfold len in Hi. lia.
Qed.

Lemma cell_insert_ne (m : Memory) i j c :
  0 <= i -> i <> j -> cell (<[Z.to_nat i := c]> m) j = cell m j.
Proof.
  intros Hi Hne. unfold cell. destruct (Z.leb_spec 0 j); [| done].
  apply list_lookup_insert_ne. lia.
Qed.

Lemma succ_small i stop :
  0 <= i < stop -> GoInt.in_range stop -> i +i 1 = i + 1.
Proof.
  intros Hi Hstop. apply add_small.
  unfold GoInt.in_range, GoInt.int_min, GoInt.int_max in *. lia.
Qed.

(** The loop of [isEmpty] returns, and tells whether the range is free. *)
Lemma isEmpty_loop_spec m n : forall i,
  0 <= i -> i + Z.of_nat n <= len m -> GoInt.in_range (i + Z.of_nat n) ->
  exists b, isEmpty_loop m i n = Ret b /\
            (b = true <-> all_free m i (Z.of_nat n)).
Proof.
  induction n as [| n IH]; intros i Hi Hlen Hrange; simpl isEmpty_loop.
  - exists true. split; [done |]. split; [| done]. intros _ j Hj. lia.
  - destruct (cell_is_Some m i) as [c Hc]; [lia |].
    rewrite (get_Ret _ _ _ Hc). simpl.
    destruct c as [q |].
    + exists false. split; [done |]. split; [done |].
      intros Hfree. specialize (Hfree i ltac:(lia)). congruence.
    + rewrite (succ_small i (i + Z.of_nat (S n))); [| lia | done].
      destruct (IH (i + 1)) as (b & -> & Hb); [lia | lia | |].
      { by replace (i + 1 + Z.of_nat n) with (i + Z.of_nat (S n)) by lia. }
      exists b. split; [done |]. rewrite Hb. split.
      * intros Hfree j Hj.
        destruct (Z.eq_dec j i) as [-> | Hne]; [done | apply Hfree; lia].
      * intros Hfree j Hj. apply Hfree. lia.
Qed.

Lemma trips_le start stop :
  start <= stop -> start + Z.of_nat (trips start stop) = stop.
Proof. unfold trips. lia. Qed.

Lemma trips_gt start stop : stop <= start -> trips start stop = 0%nat.
Proof. unfold trips. lia. Qed.

Lemma isEmpty_loop_range m start stop :
  0 <= start -> stop <= len m -> GoInt.in_range stop ->
  exists b, isEmpty_loop m start (trips start stop) = Ret b /\
            (b = true <-> all_free m start (stop - start)).
Proof.
  intros Hstart Hstop Hrange. destruct (Z.le_gt_cases start stop) as [Hle | Hgt].
  - pose proof (trips_le _ _ Hle) as Ht.
    destruct (isEmpty_loop_spec m (trips start stop) start) as (b & Hb & Hfree);
      [done | lia | by rewrite Ht |].
    exists b. split; [done |]. rewrite Hfree.
    by replace (Z.of_nat (trips start stop)) with (stop - start) by lia.
  - rewrite trips_gt by lia. exists true. split; [done |].
    split; [| done]. intros _ j Hj. lia.
Qed.

(** The writing loop of [Allocate] returns; it sets the cells of the range
    and leaves the others as they were. *)
Lemma Allocate_loop_spec p n : forall m i,
  0 <= i -> i + Z.of_nat n <= len m -> GoInt.in_range (i + Z.of_nat n) ->
  exists m', Allocate_loop m p i n = Ret m' /\ len m' = len m /\
    (forall j, i <= j < i + Z.of_nat n -> cell m' j = Some p) /\
    (forall j, ~ i <= j < i + Z.of_nat n -> cell m' j = cell m j).
Proof.
  induction n as [| n IH]; intros m i Hi Hlen Hrange; simpl Allocate_loop.
  - exists m. split; [done |]. split; [done |]. split; [lia | done].
  - rewrite set_Ret by lia. simpl.
    rewrite (succ_small i (i + Z.of_nat (S n))); [| lia | done].
    destruct (IH (<[Z.to_nat i := p]> m) (i + 1)) as (m' & -> & Hl & Hin & Hout).
    { lia. }
    { rewrite len_insert. lia. }
    { by replace (i + 1 + Z.of_nat n) with (i + Z.of_nat (S n)) by lia. }
    exists m'. split; [done |]. split; [by rewrite Hl, len_insert |]. split.
    + intros j Hj. destruct (Z.eq_dec j i) as [-> | Hne].
      * rewrite Hout by lia. apply cell_insert_eq. lia.
      * apply Hin. lia.
    + intros j Hj. rewrite Hout by lia. apply cell_insert_ne; lia.
Qed.

Lemma Allocate_loop_range p m start stop :
  0 <= start -> stop <= len m -> GoInt.in_range stop ->
  exists m', Allocate_loop m p start (trips start stop) = Ret m' /\
    len m' = len m /\
    (forall j, start <= j < stop -> cell m' j = Some p) /\
    (forall j, ~ start <= j < stop -> cell m' j = cell m j).
Proof.
  intros Hstart Hstop Hrange. destruct (Z.le_gt_cases start stop) as [Hle | Hgt].
  - pose proof (trips_le _ _ Hle) as Ht.
    destruct (Allocate_loop_spec p (trips start stop) m start)
      as (m' & Hm' & Hl & Hin & Hout); [done | lia | by rewrite Ht |].
    rewrite Ht in Hin, Hout. eauto.
  - rewrite trips_gt by lia. exists m. split; [done |]. split; [done |].
    split; [lia | done].
Qed.

(** ** Allocate, case by case in the order of its validation *)

Lemma Allocate_nil st start :
  Allocate st None start = Ret (st, Some NilProcessErr).
Proof. done. Qed.

Lemma Allocate_already st l start :
  IsAllocated (heap st l) = true ->
  Allocate st (Some l) start = Ret (st, Some AlreadyInMemory).
Proof. intros H. unfold Allocate. by rewrite H. Qed.

Lemma Allocate_bounds st l start e :
  IsAllocated (heap st l) = false ->
  checkBounds (mem st) start (SizeInKB (heap st l)) = Some e ->
  Allocate st (Some l) start = Ret (st, Some e).
Proof. intros H He. unfold Allocate. by rewrite H, He. Qed.

Lemma isEmpty_spec m start offset :
  checkBounds m start offset = None ->
  exists b, isEmpty m start offset = Ret b /\
            (b = true <-> all_free m start (start +i offset - start)).
Proof.
  intros Hb. unfold isEmpty. rewrite Hb.
  apply checkBounds_None in Hb as [Hstart Hstop].
  apply isEmpty_loop_range; [done | done | apply wrap_in_range].
Qed.

Lemma Allocate_occupied st l start :
  IsAllocated (heap st l) = false ->
  checkBounds (mem st) start (SizeInKB (heap st l)) = None ->
  ~ all_free (mem st) start (start +i SizeInKB (heap st l) - start) ->
  Allocate st (Some l) start = Ret (st, Some AlreadyOccupied).
Proof.
  intros H Hb Hocc. unfold Allocate. rewrite H, Hb.
  destruct (isEmpty_spec _ _ _ Hb) as (b & -> & Hfree). simpl.
  destruct b; [| done]. exfalso. by apply Hocc, Hfree.
Qed.

Lemma Allocate_no_ID st l start :
  IsAllocated (heap st l) = false ->
  checkBounds (mem st) start (SizeInKB (heap st l)) = None ->
  all_free (mem st) start (start +i SizeInKB (heap st l) - start) ->
  ID (heap st l) = EmptyString ->
  Allocate st (Some l) start = Ret (st, Some AllocateNoID).
Proof.
  intros H Hb Hfree Hid. unfold Allocate. rewrite H, Hb.
  destruct (isEmpty_spec _ _ _ Hb) as (b & -> & Hfree'). simpl.
  destruct b; [| by apply Hfree' in Hfree]. simpl. by rewrite Hid.
Qed.

Lemma Allocate_success st l start :
  IsAllocated (heap st l) = false ->
  checkBounds (mem st) start (SizeInKB (heap st l)) = None ->
  all_free (mem st) start (start +i SizeInKB (heap st l) - start) ->
  ID (heap st l) <> EmptyString ->
  exists m',
    Allocate st (Some l) start =
      Ret (mkState m' (<[l := set_allocation (heap st l) true start]> (heap st)),
           None) /\
    len m' = len (mem st) /\
    (forall j, start <= j < start +i SizeInKB (heap st l) ->
       cell m' j = Some (Some l)) /\
    (forall j, ~ start <= j < start +i SizeInKB (heap st l) ->
       cell m' j = cell (mem st) j).
Proof.
  intros H Hb Hfree Hid. unfold Allocate. rewrite H, Hb.
  destruct (isEmpty_spec _ _ _ Hb) as (b & -> & Hfree'). simpl.
  destruct b; [| by apply Hfree' in Hfree]. simpl.
  apply String.eqb_neq in Hid. rewrite Hid.
  apply checkBounds_None in Hb as [Hstart Hstop].
  destruct (Allocate_loop_range (Some l) (mem st) start
              (start +i SizeInKB (heap st l)))
    as (m' & -> & Hl & Hin & Hout);
    [done | done | apply wrap_in_range |].
  exists m'. simpl. done.
Qed.

(** X25: whatever [Allocate] is given, it returns: the cells it reads and
    writes are inside the slice.  When it returns an error the state is the
    one it was given. *)
Lemma Allocate_total st p start :
  exists st' err, Allocate st p start = Ret (st', err) /\
                  (err <> None -> st' = st).
Proof.
  destruct p as [l |]; [| by eexists _, _].
  destruct (IsAllocated (heap st l)) eqn:Ha.
  { eexists _, _. split; [by apply Allocate_already | done]. }
  destruct (checkBounds (mem st) start (SizeInKB (heap st l))) as [e |] eqn:Hb.
  { eexists _, _. split; [by apply Allocate_bounds | done]. }
  unfold Allocate. rewrite Ha, Hb.
  destruct (isEmpty_spec _ _ _ Hb) as (b & -> & _). simpl.
  destruct b; simpl; [| by eexists _, _].
  destruct (String.eqb (ID (heap st l)) EmptyString); [by eexists _, _ |].
  apply checkBounds_None in Hb as [Hstart Hstop].
  destruct (Allocate_loop_range (Some l) (mem st) start
              (start +i SizeInKB (heap st l)))
    as (m' & -> & _); [done | done | apply wrap_in_range |].
  simpl. eexists _, _. split; [done |]. intros Hn. by destruct Hn.
Qed.

(** ** The loop of ReleaseProcess *)

Definition unsafe_delete (h : Heap) (l q : loc) : error :=
  UnsafeDelete (ID (h q)) (ID (h l)) (MemoryAddress (h l)) (SizeInKB (h l)).

Lemma Release_loop_free h l m b i n :
  cell m i = Some None ->
  Release_loop h l m b i (S n) = Panic NilDereference.
Proof. intros Hc. simpl. by rewrite (get_Ret _ _ _ Hc). Qed.

Lemma Release_loop_match h l m b i n q :
  cell m i = Some (Some q) -> ID (h q) = ID (h l) ->
  Release_loop h l m b i (S n) =
  Release_loop h l (<[Z.to_nat i := None]> m) true (i +i 1) n.
Proof.
  intros Hc Hid. simpl. rewrite (get_Ret _ _ _ Hc). simpl.
  rewrite Hid, String.eqb_refl, set_Ret; [done |].
  by apply cell_lt_len in Hc.
Qed.

Lemma Release_loop_mismatch h l m b i n q :
  cell m i = Some (Some q) -> ID (h q) <> ID (h l) ->
  Release_loop h l m b i (S n) =
  if b then Panic (CorruptedMemoryState (unsafe_delete h l q))
  else Ret (m, false, Some (unsafe_delete h l q)).
Proof.
  intros Hc Hid. simpl. rewrite (get_Ret _ _ _ Hc). simpl.
  apply String.eqb_neq in Hid. rewrite Hid. by destruct b.
Qed.

(** The cells of [[i, i+k)] whose owner carries the ID of [l] are cleared one
    after the other, and the flag is raised once one has been. *)
Lemma Release_loop_prefix h l k : forall m b i n,
  0 <= i -> GoInt.in_range (i + Z.of_nat k) ->
  (forall j, i <= j < i + Z.of_nat k ->
     exists q, cell m j = Some (Some q) /\ ID (h q) = ID (h l)) ->
  exists m',
    Release_loop h l m b i (k + n) =
      Release_loop h l m' (b || negb (Nat.eqb k 0)) (i + Z.of_nat k) n /\
    len m' = len m /\
    (forall j, i <= j < i + Z.of_nat k -> cell m' j = Some None) /\
    (forall j, ~ i <= j < i + Z.of_nat k -> cell m' j = cell m j).
Proof.
  induction k as [| k IH]; intros m b i n Hi Hrange Hown.
  - exists m. simpl. rewrite orb_false_r, Z.add_0_r.
    split; [done |]. split; [done |]. split; [lia | done].
  - destruct (Hown i) as (q & Hc & Hid); [lia |].
    pose proof (cell_lt_len _ _ _ Hc) as Hlt.
    change (S k + n)%nat with (S (k + n)).
    rewrite (Release_loop_match _ _ _ _ _ _ _ Hc Hid).
    rewrite (succ_small i (i + Z.of_nat (S k))); [| lia | done].
    destruct (IH (<[Z.to_nat i := None]> m) true (i + 1) n)
      as (m' & -> & Hl & Hin & Hout).
    { lia. }
    { by replace (i + 1 + Z.of_nat k) with (i + Z.of_nat (S k)) by lia. }
    { intros j Hj. rewrite cell_insert_ne by lia. apply Hown. lia. }
    exists m'. simpl. rewrite orb_true_r.
    replace (i + 1 + Z.of_nat k) with (i + Z.of_nat (S k)) by lia.
    split; [done |]. split; [by rewrite Hl, len_insert |]. split.
    + intros j Hj. destruct (Z.eq_dec j i) as [-> | Hne].
      * rewrite Hout by lia. apply cell_insert_eq. lia.
      * apply Hin. lia.
    + intros j Hj. rewrite Hout by lia. apply cell_insert_ne; lia.
Qed.

(** ** ReleaseProcess: validation *)

Lemma ReleaseProcess_bounds st l e :
  checkBounds (mem st) (MemoryAddress (heap st l)) (SizeInKB (heap st l))
    = Some e ->
  ReleaseProcess st (Some l) = Ret (st, false, Some e).
Proof. intros He. unfold ReleaseProcess. simpl. by rewrite He. Qed.

Lemma ReleaseProcess_no_ID st l :
  checkBounds (mem st) (MemoryAddress (heap st l)) (SizeInKB (heap st l))
    = None ->
  ID (heap st l) = EmptyString ->
  ReleaseProcess st (Some l) = Ret (st, false, Some ReleaseNoID).
Proof. intros Hb Hid. unfold ReleaseProcess. simpl. by rewrite Hb, Hid. Qed.

Lemma ReleaseProcess_loop st l :
  checkBounds (mem st) (MemoryAddress (heap st l)) (SizeInKB (heap st l))
    = None ->
  ID (heap st l) <> EmptyString ->
  ReleaseProcess st (Some l) =
    r ← Release_loop (heap st) l (mem st) false (MemoryAddress (heap st l))
          (trips (MemoryAddress (heap st l))
                 (MemoryAddress (heap st l) +i SizeInKB (heap st l)));
    match r with
    | (m', _, Some e) => Ret (mkState m' (heap st), false, Some e)
    | (m', beenReleased, None) =>
        Ret (mkState m'
               (<[l := set_allocation (heap st l) false (-1)]> (heap st)),
             beenReleased, None)
    end.
Proof.
  intros Hb Hid. unfold ReleaseProcess. simpl. rewrite Hb.
  apply String.eqb_neq in Hid. by rewrite Hid.
Qed.

Lemma trips_S start stop :
  start < stop -> exists n, trips start stop = S n.
Proof. intros H. exists (Z.to_nat (stop - start - 1)). unfold trips. lia. Qed.

(** C2: once the validation of [ReleaseProcess] has passed and the walk has a
    first cell, an owner of that cell with another ID makes the operation
    return the [UnsafeDelete] error, an [UnsafeRelease] error, with the state
    it was given; an owner with another ID met after [k >= 1] cells have been
    cleared makes it panic. *)
Theorem ReleaseProcess_owner_mismatch (st : State) (l : loc) :
  let a := MemoryAddress (heap st l) in
  let stop := a +i SizeInKB (heap st l) in
  checkBounds (mem st) a (SizeInKB (heap st l)) = None ->
  ID (heap st l) <> EmptyString ->
  (forall q,
     a < stop ->
     cell (mem st) a = Some (Some q) ->
     ID (heap st q) <> ID (heap st l) ->
     exists e, ReleaseProcess st (Some l) = Ret (st, false, Some e) /\
               kind e = UnsafeRelease) /\
  (forall k q,
     1 <= k -> a + k < stop ->
     (forall j, a <= j < a + k ->
        exists q', cell (mem st) j = Some (Some q') /\
                   ID (heap st q') = ID (heap st l)) ->
     cell (mem st) (a + k) = Some (Some q) ->
     ID (heap st q) <> ID (heap st l) ->
     exists e, ReleaseProcess st (Some l) = Panic (CorruptedMemoryState e)).
Proof.
  intros a stop Hb Hid.
  rewrite (ReleaseProcess_loop _ _ Hb Hid). fold a. fold stop. split.
  - intros q Hlt Hc Hne. destruct (trips_S _ _ Hlt) as [n ->].
    rewrite (Release_loop_mismatch _ _ _ _ _ _ _ Hc Hne). simpl.
    exists (unsafe_delete (heap st) l q). split; [by destruct st | done].
  - intros k q Hk Hlt Hown Hc Hne.
    assert (GoInt.in_range stop) as Hstop by apply wrap_in_range.
    assert (0 <= a) as Ha by (by apply checkBounds_None in Hb as [? _]).
    assert (trips a stop = (Z.to_nat k + S (Z.to_nat (stop - a - k - 1)))%nat)
      as -> by (unfold trips; lia).
    destruct (Release_loop_prefix (heap st) l (Z.to_nat k) (mem st) false a
                (S (Z.to_nat (stop - a - k - 1))))
      as (m' & -> & Hl & Hin & Hout).
    { done. }
    { unfold GoInt.in_range, GoInt.int_min, GoInt.int_max in *. lia. }
    { intros j Hj. apply Hown. lia. }
    rewrite Z2Nat.id in * by lia.
    assert (cell m' (a + k) = Some (Some q)) as Hc'.
    { rewrite Hout by lia. done. }
    rewrite (Release_loop_mismatch _ _ _ _ _ _ _ Hc' Hne).
    destruct (Nat.eqb_spec (Z.to_nat k) 0); [lia |]. simpl. eauto.
Qed.

Lemma ReleaseProcess_owner_mismatch_witness :
  (exists e, ReleaseProcess Examples.stale_start (Some 0%nat)
             = Ret (Examples.stale_start, false, Some e) /\
             kind e = UnsafeRelease) /\
  (exists e, ReleaseProcess Examples.stale_tail (Some 0%nat)
             = Panic (CorruptedMemoryState e)).
Proof.
  split.
  - apply (proj1 (ReleaseProcess_owner_mismatch Examples.stale_start 0%nat
                    eq_refl ltac:(discriminate)) 1%nat);
      [reflexivity | reflexivity | discriminate].
  - apply (proj2 (ReleaseProcess_owner_mismatch Examples.stale_tail 0%nat
                    eq_refl ltac:(discriminate)) 1 1%nat);
      [lia | reflexivity | | reflexivity | discriminate].
    intros j Hj. change (0 <= j < 0 + 1) in Hj.
    exists 0%nat. by replace j with 0 by lia.
Defined.

(** C5 (amended): [ReleaseProcess] on a process with the empty ID returns an
    error and the state it was given; the error is [ReleaseNoID], a
    [MissingIdentity] error, when the recorded range passes the bounds check,
    and the [OutOfBounds] error of the bounds check otherwise, since that
    check comes first. *)
Theorem ReleaseProcess_empty_ID (st : State) (l : loc) :
  ID (heap st l) = EmptyString ->
  let a := MemoryAddress (heap st l) in
  let stop := a +i SizeInKB (heap st l) in
  exists e,
    ReleaseProcess st (Some l) = Ret (st, false, Some e) /\
    (0 <= a /\ stop <= len (mem st) -> e = ReleaseNoID /\ kind e = MissingIdentity) /\
    (a < 0 \/ stop > len (mem st) -> kind e = OutOfBounds).
Proof.
  intros Hid a stop. subst a stop.
  destruct (checkBounds (mem st) (MemoryAddress (heap st l))
              (SizeInKB (heap st l))) as [e |] eqn:Hb.
  - exists e. split; [by apply ReleaseProcess_bounds |]. split.
    + intros Hin. apply checkBounds_None in Hin. congruence.
    + intros _. by apply checkBounds_kind in Hb.
  - exists ReleaseNoID. split; [by apply ReleaseProcess_no_ID |]. split; [done |].
    apply checkBounds_None in Hb. intros Hout. exfalso. lia.
Qed.

Lemma ReleaseProcess_empty_ID_witness :
  exists e,
    ReleaseProcess Examples.one_free_anonymous (Some 0%nat)
      = Ret (Examples.one_free_anonymous, false, Some e) /\
    (0 <= -1 /\ -1 +i 1 <= 1 -> e = ReleaseNoID /\ kind e = MissingIdentity) /\
    (-1 < 0 \/ -1 +i 1 > 1 -> kind e = OutOfBounds).
Proof.
  exact (ReleaseProcess_empty_ID Examples.one_free_anonymous 0%nat eq_refl).
Defined.

(** C5 as stated fails: the process has the empty ID, and the error returned
    is the one of the bounds check. *)
Lemma ReleaseProcess_empty_ID_out_of_bounds :
  ID (heap Examples.one_free_anonymous 0%nat) = EmptyString /\
  ReleaseProcess Examples.one_free_anonymous (Some 0%nat)
    = Ret (Examples.one_free_anonymous, false, Some NegativeStart) /\
  kind NegativeStart <> MissingIdentity.
Proof. split; [reflexivity |]. split; [reflexivity | discriminate]. Qed.

(** C6 (amended): for a process that is not already allocated, [Allocate]
    returns an [OutOfBounds] error, and the state it was given, whenever
    [start < 0], or [start + SizeInKB > N] with the sum in the range of
    [int]. *)
Theorem Allocate_out_of_bounds (st : State) (l : loc) (start : Z) :
  IsAllocated (heap st l) = false ->
  start < 0 \/
  (GoInt.in_range (start + SizeInKB (heap st l)) /\
   start + SizeInKB (heap st l) > len (mem st)) ->
  exists e, Allocate st (Some l) start = Ret (st, Some e) /\
            kind e = OutOfBounds.
Proof.
  intros Ha Hout.
  destruct (checkBounds (mem st) start (SizeInKB (heap st l))) as [e |] eqn:Hb.
  - exists e. split; [by apply Allocate_bounds | by apply checkBounds_kind in Hb].
  - exfalso. apply checkBounds_None in Hb as [Hstart Hstop].
    destruct Hout as [? | [Hr Hgt]]; [lia |].
    rewrite add_small in Hstop by done. lia.
Qed.

Lemma Allocate_out_of_bounds_witness :
  exists e, Allocate Examples.one_free (Some 0%nat) 1
            = Ret (Examples.one_free, Some e) /\
            kind e = OutOfBounds.
Proof.
  apply (Allocate_out_of_bounds Examples.one_free 0%nat 1 eq_refl).
  right. unfold GoInt.in_range, GoInt.int_min, GoInt.int_max, len. simpl. lia.
Defined.

(** C6 as stated fails: with [start < 0], a process that is already
    allocated gets the [AlreadyAllocated] error, which is checked first. *)
Lemma Allocate_already_allocated_first :
  -1 < 0 /\
  Allocate Examples.one_owned (Some 0%nat) (-1)
    = Ret (Examples.one_owned, Some AlreadyInMemory) /\
  kind AlreadyInMemory <> OutOfBounds.
Proof. split; [lia |]. split; [reflexivity | discriminate]. Qed.

(** C10: the release loop reads the ID of the owner of a free cell.  The
    process has an ID, its recorded range [[0, 1)] passes the bounds check,
    and the cell of that range is free: the field access panics. *)
Theorem ReleaseProcess_free_cell_panics :
  ID (heap Examples.one_free 0%nat) <> EmptyString /\
  checkBounds (mem Examples.one_free)
    (MemoryAddress (heap Examples.one_free 0%nat))
    (SizeInKB (heap Examples.one_free 0%nat)) = None /\
  cell (mem Examples.one_free) 0 = Some None /\
  ReleaseProcess Examples.one_free (Some 0%nat) = Panic NilDereference.
Proof. split; [discriminate |]. repeat split; reflexivity. Qed.

(** ** Layout: the scan produces the run-length encoding *)

Lemma tiles_app st L1 : forall from L2 to,
  tiles st from (L1 ++ L2) to <->
  exists mid, tiles st from L1 mid /\ tiles st mid L2 to.
Proof.
  induction L1 as [| b L1 IH]; intros from L2 to; simpl.
  - split; [eauto | by intros (mid & -> & H)].
  - split.
    + intros (Hs & Hsz & Hc & Hch & Hrest).
      apply IH in Hrest as (mid & H1 & H2). eauto 10.
    + intros (mid & (Hs & Hsz & Hc & Hch & H1) & H2).
      repeat (split; [done |]). apply IH. eauto.
Qed.

Lemma tiles_le st L : forall from to, tiles st from L to -> from <= to.
Proof.
  induction L as [| b L IH]; intros from to; simpl.
  - lia.
  - intros (_ & Hsz & _ & _ & Hrest). apply IH in Hrest. lia.
Qed.

(** A block that has just been started at cell [k]. *)
Lemma tiles_new_block st k c name :
  0 <= k -> cell (mem st) k = Some c ->
  cell (mem st) (k - 1) <> Some c -> name = owner_name st c ->
  tiles st k [mkBlock k 1 name] (k + 1).
Proof.
  intros Hk Hc Hch Hname. simpl. split; [done |]. split; [lia |]. split.
  - exists c. split; [| done]. intros i Hi. by replace i with k by lia.
  - split; [| done]. right. by rewrite Hc.
Qed.

(** The last block grows by the cell [k] when that cell holds what the cell
    before it holds. *)
Lemma tiles_grow st mid b k :
  tiles st mid [b] k -> cell (mem st) k = cell (mem st) (k - 1) ->
  tiles st mid [mkBlock (Start b) (Size b + 1) (BlockName b)] (k + 1).
Proof.
  simpl. intros (Hs & Hsz & (c & Hc & Hname) & Hch & <-) Heq.
  split; [done |]. split; [lia |]. split; [| split; [done | lia]].
  exists c. split; [| done]. intros i Hi.
  destruct (Z.eq_dec i (mid + Size b)) as [-> | Hne].
  - rewrite Heq. apply Hc. lia.
  - apply Hc. lia.
Qed.

Lemma tiles_last_size st mid b k :
  0 <= mid -> tiles st mid [b] k -> 1 <= Size b <= k.
Proof. simpl. intros Hmid (_ & Hsz & _ & _ & <-). lia. Qed.

Lemma alter_last (f : MemoryBlock -> MemoryBlock) (L : MemoryLayout) b :
  alter f (length L) (L ++ [b]) = L ++ [f b].
Proof. rewrite <- (Nat.add_0_r (length L)). by rewrite alter_app_r. Qed.

Lemma pred_small k : 1 <= k <= GoInt.int_max -> k +i (-1) = k - 1.
Proof.
  intros Hk. rewrite add_small; [lia |].
  unfold GoInt.in_range, GoInt.int_min, GoInt.int_max in *. lia.
Qed.

Lemma Layout_loop_spec st rest : forall k L b prev,
  valid_len (mem st) -> 1 <= k <= len (mem st) ->
  drop (Z.to_nat k) (mem st) = rest ->
  tiles st 0 (L ++ [b]) k ->
  (prev = true <-> cell (mem st) (k - 1) = Some None) ->
  exists L', Layout_loop st rest k (L ++ [b]) (Some (length L)) prev = Ret L' /\
             tiles st 0 L' (len (mem st)).
Proof.
  induction rest as [| c rest IH]; intros k L b prev Hvalid Hk Hdrop Htiles Hprev.
  - simpl. exists (L ++ [b]). split; [done |].
    by rewrite <- (drop_all_len (mem st) k) by (done || lia).
  - assert (0 <= k) as Hk0 by lia.
    destruct (cell_drop _ _ _ _ Hk0 Hdrop) as (Hc & Hdrop' & Hlt).
    destruct (cell_is_Some (mem st) (k - 1)) as [c0 Hc0]; [lia |].
    assert (k <= GoInt.int_max) as Hmax by (unfold valid_len in Hvalid; lia).
    assert (forall name, cell (mem st) (k - 1) <> Some c ->
              name = owner_name st c ->
              tiles st 0 ((L ++ [b]) ++ [mkBlock k (0 +i 1) name]) (k + 1))
      as Hnew.
    { intros name Hch Hname. apply tiles_app. exists k. split; [done |].
      change (0 +i 1) with 1. apply (tiles_new_block st k c); (done || lia). }
    simpl Layout_loop.
    destruct (bool_decide (c = None) && negb prev) eqn:Hfree.
    + (* a free block starts *)
      apply andb_true_iff in Hfree as [->%bool_decide_eq_true Hp].
      rewrite alter_last. simpl.
      apply IH; [done | lia | done | | by rewrite Z.add_simpl_r].
      apply Hnew; [| done].
      intros H. apply Hprev in H. by destruct prev.
    + unfold starts_nonempty.
      replace (k =? 0) with false by (symmetry; apply Z.eqb_neq; lia).
      rewrite andb_false_r, pred_small by lia.
      rewrite (get_Ret _ _ _ Hc0). simpl.
      destruct (bool_decide (c0 <> c)) eqn:Hch.
      * (* an owned block starts *)
        apply bool_decide_eq_true in Hch.
        destruct c as [q |].
        2:{ exfalso. apply andb_false_iff in Hfree as [Hf | Hf].
            - by apply bool_decide_eq_false in Hf.
            - apply negb_false_iff in Hf. subst prev.
              apply Hch. destruct Hprev as [Hp _].
              specialize (Hp eq_refl). congruence. }
        simpl. rewrite alter_last. simpl.
        apply IH; [done | lia | done | |].
        -- apply Hnew; [congruence | done].
        -- rewrite Z.add_simpl_r, Hc. split; discriminate.
      * (* the current block is continued *)
        apply bool_decide_eq_false in Hch.
        assert (c0 = c) as -> by (destruct (decide (c0 = c)); [done | tauto]).
        rewrite alter_last. simpl.
        apply tiles_app in Htiles as (mid & HL & Hb).
        pose proof (tiles_le _ _ _ _ HL) as Hmid.
        pose proof (tiles_last_size _ _ _ _ Hmid Hb) as Hsz.
        rewrite add_small.
        2:{ unfold valid_len, GoInt.in_range, GoInt.int_min, GoInt.int_max in *.
            lia. }
        apply IH; [done | lia | done | |].
        -- apply tiles_app. exists mid. split; [done |].
           apply tiles_grow; [done | congruence].
        -- rewrite Z.add_simpl_r, Hc, <- Hc0. done.
Qed.

Lemma Layout_loop_first st c rest :
  Layout_loop st (c :: rest) 0 [] None false =
  Layout_loop st rest 1 ([] ++ [mkBlock 0 1 (owner_name st c)]) (Some 0%nat)
    (bool_decide (c = None)).
Proof. by destruct c. Qed.

Lemma Layout_tiles st :
  valid_len (mem st) ->
  exists L, Layout st = Ret L /\ tiles st 0 L (len (mem st)).
Proof.
  intros Hvalid. unfold Layout.
  destruct (mem st) as [| c rest] eqn:Hm; [exists []; split; reflexivity |].
  rewrite Layout_loop_first, <- Hm. rewrite <- Hm in Hvalid.
  assert (cell (mem st) 0 = Some c) as Hc by (by rewrite Hm).
  pose proof (cell_lt_len _ _ _ Hc) as Hlen.
  apply (Layout_loop_spec st rest 1 []); [done | lia | by rewrite Hm | |].
  - apply (tiles_new_block st 0 c); [lia | done | by rewrite cell_neg | done].
  - change (1 - 1) with 0. rewrite Hc, bool_decide_eq_true. split; congruence.
Qed.

Lemma tiles_start_ge st L : forall from to b,
  tiles st from L to -> In b L -> from <= Start b.
Proof.
  induction L as [| b0 L IH]; intros from to b; simpl; [done |].
  intros (Hs & Hsz & _ & _ & Hrest) [-> | Hin]; [lia |].
  specialize (IH _ _ _ Hrest Hin). lia.
Qed.

Lemma tiles_head_change st L from to :
  tiles st from L to -> from < to -> 0 < from ->
  cell (mem st) (from - 1) <> cell (mem st) from.
Proof.
  destruct L as [| b L]; simpl; [lia |].
  intros (_ & _ & _ & [? | ?] & _) ? ?; [lia | done].
Qed.

(** The blocks start at index [from] and at the changes of owner, nowhere
    else. *)
Lemma tiles_starts st L : forall from to,
  tiles st from L to -> 0 <= from ->
  forall i, from <= i < to ->
    (exists b, In b L /\ Start b = i) <->
    (i = from \/ cell (mem st) (i - 1) <> cell (mem st) i).
Proof.
  induction L as [| b L IH]; intros from to; simpl; [lia |].
  intros (Hs & Hsz & (c & Hc & _) & Hch & Hrest) Hfrom i Hi.
  destruct (Z.lt_ge_cases i (from + Size b)) as [Hin | Hout].
  - split.
    + intros (b' & [<- | Hb'] & Hst); [left; lia |].
      pose proof (tiles_start_ge _ _ _ _ _ Hrest Hb'). lia.
    + intros [-> | Hne]; [by exists b; auto |].
      destruct (Z.eq_dec i from) as [-> | Hif]; [by exists b; auto |].
      exfalso. apply Hne. rewrite !Hc by lia. done.
  - specialize (IH _ _ Hrest ltac:(lia) i ltac:(lia)). split.
    + intros (b' & [<- | Hb'] & Hst); [lia |]. right.
      destruct (proj1 IH) as [-> | Hne]; [by exists b' | | done].
      apply (tiles_head_change _ _ _ _ Hrest); lia.
    + intros [-> | Hne]; [lia |].
      destruct (proj2 IH) as (b' & Hb' & Hst); [by right |].
      exists b'. auto.
Qed.

(** C9: [Layout] returns the run-length encoding of the address space, left
    to right: the blocks tile [[0, N)] with maximal runs of cells of one
    owner, a block starts at index 0 and at every change of owner and nowhere
    else, a free block carries [FREE_BLOCK] and an owned one the [Name] of
    its owner; with [N = 10] and P1 of size 3 allocated at 0 the result is
    [{0,3,P1}; {3,7,FREE_BLOCK}]. *)
Theorem Layout_run_length_encoding :
  (forall st : State,
     valid_len (mem st) ->
     exists L,
       Layout st = Ret L /\
       tiles st 0 L (len (mem st)) /\
       forall i, 0 <= i < len (mem st) ->
         (exists b, In b L /\ Start b = i) <->
         (i = 0 \/ cell (mem st) (i - 1) <> cell (mem st) i)) /\
  (exists st1,
     Allocate ScenarioA.st0 (Some 0%nat) 0 = Ret (st1, None) /\
     Layout st1 = Ret [mkBlock 0 3 "P1"; mkBlock 3 7 FREE_BLOCK]).
Proof.
  split.
  - intros st Hvalid. destruct (Layout_tiles st Hvalid) as (L & HL & Ht).
    exists L. split; [done |]. split; [done |].
    by apply (tiles_starts st L 0 (len (mem st))).
  - eexists. split; reflexivity.
Qed.

Lemma Layout_run_length_encoding_witness :
  exists L,
    Layout Examples.stale_tail = Ret L /\
    tiles Examples.stale_tail 0 L (len (mem Examples.stale_tail)) /\
    forall i, 0 <= i < len (mem Examples.stale_tail) ->
      (exists b, In b L /\ Start b = i) <->
      (i = 0 \/ cell (mem Examples.stale_tail) (i - 1)
                <> cell (mem Examples.stale_tail) i).
Proof.
  apply (proj1 Layout_run_length_encoding Examples.stale_tail).
  unfold valid_len, len, GoInt.int_max. simpl. lia.
Defined.

(** ** Allocate and ReleaseProcess when the sum [start + SizeInKB] does not
    overflow *)

(** What is known when [Allocate] has returned without an error. *)
Lemma Allocate_Ret_None st l start st1 :
  Allocate st (Some l) start = Ret (st1, None) ->
  IsAllocated (heap st l) = false /\
  checkBounds (mem st) start (SizeInKB (heap st l)) = None /\
  all_free (mem st) start (start +i SizeInKB (heap st l) - start) /\
  ID (heap st l) <> EmptyString /\
  heap st1 = <[l := set_allocation (heap st l) true start]> (heap st) /\
  len (mem st1) = len (mem st) /\
  (forall j, start <= j < start +i SizeInKB (heap st l) ->
     cell (mem st1) j = Some (Some l)) /\
  (forall j, ~ start <= j < start +i SizeInKB (heap st l) ->
     cell (mem st1) j = cell (mem st) j).
Proof.
  intros HA.
  destruct (IsAllocated (heap st l)) eqn:Ha.
  { by rewrite Allocate_already in HA. }
  destruct (checkBounds (mem st) start (SizeInKB (heap st l))) as [e |] eqn:Hb.
  { by rewrite (Allocate_bounds _ _ _ e) in HA. }
  destruct (isEmpty_spec _ _ _ Hb) as (b & Hemp & Hfree).
  destruct b.
  2:{ rewrite Allocate_occupied in HA; [done | done | done |].
      intros H. by apply Hfree in H. }
  assert (all_free (mem st) start (start +i SizeInKB (heap st l) - start))
    as Hall by (by apply Hfree).
  destruct (String.eqb_spec (ID (heap st l)) EmptyString) as [Hid | Hid].
  { by rewrite Allocate_no_ID in HA. }
  destruct (Allocate_success _ _ _ Ha Hb Hall Hid) as (m' & HA' & Hl & Hin & Hout).
  rewrite HA' in HA. injection HA as <-. simpl. done.
Qed.

(** [ReleaseProcess] on a process whose recorded range lies in the address
    space and is owned, cell by cell, under the ID of the process: the cells
    are cleared, the process is marked as not allocated, and the result tells
    whether a cell was cleared. *)
Lemma ReleaseProcess_owned st l :
  let a := MemoryAddress (heap st l) in
  let sz := SizeInKB (heap st l) in
  0 <= a -> 0 <= sz -> a + sz <= len (mem st) -> GoInt.in_range (a + sz) ->
  ID (heap st l) <> EmptyString ->
  (forall j, a <= j < a + sz ->
     exists q, cell (mem st) j = Some (Some q) /\
               ID (heap st q) = ID (heap st l)) ->
  exists m',
    ReleaseProcess st (Some l) =
      Ret (mkState m' (<[l := set_allocation (heap st l) false (-1)]> (heap st)),
           negb (sz =? 0), None) /\
    len m' = len (mem st) /\
    (forall j, a <= j < a + sz -> cell m' j = Some None) /\
    (forall j, ~ a <= j < a + sz -> cell m' j = cell (mem st) j).
Proof.
  intros a sz Ha Hsz Hlen Hrange Hid Hown.
  assert (a +i sz = a + sz) as Hsum by (by apply add_small).
  assert (checkBounds (mem st) a sz = None) as Hb.
  { apply checkBounds_None. rewrite Hsum. done. }
  rewrite (ReleaseProcess_loop _ _ Hb Hid). fold a sz. rewrite Hsum.
  replace (trips a (a + sz)) with (Z.to_nat sz + 0)%nat by (unfold trips; lia).
  destruct (Release_loop_prefix (heap st) l (Z.to_nat sz) (mem st) false a 0)
    as (m' & -> & Hl & Hin & Hout).
  { done. }
  { by rewrite Z2Nat.id. }
  { intros j Hj. apply Hown. lia. }
  rewrite Z2Nat.id in * by lia. simpl.
  exists m'. split; [| done]. do 3 f_equal.
  destruct (Z.eqb_spec sz 0) as [-> | Hne]; [done |].
  destruct (Nat.eqb_spec (Z.to_nat sz) 0); [lia | done].
Qed.

(** The round trip through [Allocate] (supporting C7): a process of positive
    size placed at a [start] whose sum with the size does not overflow is
    released with result [true]; its cells are free again, the other cells
    are untouched, and it is marked as not allocated at address [-1]. *)
Theorem Allocate_ReleaseProcess st l start st1 :
  0 < SizeInKB (heap st l) ->
  GoInt.in_range (start + SizeInKB (heap st l)) ->
  Allocate st (Some l) start = Ret (st1, None) ->
  exists st2,
    ReleaseProcess st1 (Some l) = Ret (st2, true, None) /\
    (forall j, start <= j < start + SizeInKB (heap st l) ->
       cell (mem st1) j = Some (Some l) /\ cell (mem st2) j = Some None) /\
    (forall j, ~ start <= j < start + SizeInKB (heap st l) ->
       cell (mem st2) j = cell (mem st1) j) /\
    IsAllocated (heap st2 l) = false /\
    MemoryAddress (heap st2 l) = -1.
Proof.
  intros Hsz Hrange HA.
  destruct (Allocate_Ret_None _ _ _ _ HA)
    as (Ha & Hb & Hfree & Hid & Hheap & Hlen & Hin & Hout).
  apply checkBounds_None in Hb as [Hstart Hstop].
  rewrite add_small in * by done.
  assert (heap st1 l = set_allocation (heap st l) true start) as Hl.
  { by rewrite Hheap, fn_lookup_insert. }
  destruct (ReleaseProcess_owned st1 l) as (m' & HR & Hl' & Hin' & Hout').
  { rewrite Hl. simpl. lia. }
  { rewrite Hl. simpl. lia. }
  { rewrite Hl. simpl. lia. }
  { by rewrite Hl. }
  { by rewrite Hl. }
  { rewrite Hl. simpl. intros j Hj. exists l. split; [by apply Hin |].
    by rewrite Hl. }
  rewrite Hl in HR, Hin', Hout'. simpl in HR, Hin', Hout'.
  destruct (Z.eqb_spec (SizeInKB (heap st l)) 0) as [? | _]; [lia |].
  eexists. split; [exact HR |]. simpl. split; [| split; [done |]].
  - intros j Hj. split; [by apply Hin | by apply Hin'].
  - by rewrite fn_lookup_insert.
Qed.

Lemma AllocateWorstFit_Ret_None st l st1 :
  valid_len (mem st) -> 0 < SizeInKB (heap st l) ->
  AllocateWorstFit st (Some l) = Ret (st1, None) ->
  exists start,
    Allocate st (Some l) start = Ret (st1, None) /\
    0 <= start /\ start + SizeInKB (heap st l) <= len (mem st).
Proof.
  intros Hvalid Hsz. unfold AllocateWorstFit.
  destruct (WorstFit_best (mem st) (SizeInKB (heap st l)) Hvalid)
    as (bs & bsz & -> & _ & Hbest).
  destruct (Z.gtb_spec (SizeInKB (heap st l)) bsz) as [Hgt | Hle]; [done |].
  intros HA. exists bs. split; [done |].
  destruct Hbest as [[-> ->] | [Hrun Hend]]; [lia |].
  apply free_run_in_len in Hrun. lia.
Qed.

(** The round trip through [AllocateWorstFit] (supporting C7). *)
Theorem AllocateWorstFit_ReleaseProcess st l st1 :
  valid_len (mem st) -> 0 < SizeInKB (heap st l) ->
  AllocateWorstFit st (Some l) = Ret (st1, None) ->
  exists start st2,
    MemoryAddress (heap st1 l) = start /\
    ReleaseProcess st1 (Some l) = Ret (st2, true, None) /\
    (forall j, start <= j < start + SizeInKB (heap st l) ->
       cell (mem st1) j = Some (Some l) /\ cell (mem st2) j = Some None) /\
    (forall j, ~ start <= j < start + SizeInKB (heap st l) ->
       cell (mem st2) j = cell (mem st1) j) /\
    IsAllocated (heap st2 l) = false /\
    MemoryAddress (heap st2 l) = -1.
Proof.
  intros Hvalid Hsz HA.
  destruct (AllocateWorstFit_Ret_None _ _ _ Hvalid Hsz HA)
    as (start & HA' & Hstart & Hend).
  assert (GoInt.in_range (start + SizeInKB (heap st l))) as Hrange.
  { unfold valid_len, GoInt.in_range, GoInt.int_min, GoInt.int_max in *. lia. }
  destruct (Allocate_ReleaseProcess _ _ _ _ Hsz Hrange HA') as (st2 & H).
  exists start, st2. split; [| done].
  destruct (Allocate_Ret_None _ _ _ _ HA') as (_ & _ & _ & _ & -> & _).
  by rewrite fn_lookup_insert.
Qed.

(** ** Counting free cells and allocated sizes *)

Lemma TotalFree_loop_free_cells cells : forall total,
  0 <= total -> total + len cells <= GoInt.int_max ->
  TotalFree_loop cells total = total + free_cells cells /\
  0 <= free_cells cells <= len cells.
Proof.
  induction cells as [| c cells IH]; intros total Htot Hmax; simpl.
  - unfold len. simpl. lia.
  - assert (len (c :: cells) = 1 + len cells) as Hlen
      by (unfold len; simpl length; lia).
    rewrite Hlen in *. destruct c as [q |].
    + destruct (IH total) as [-> ?]; [lia | lia |]. lia.
    + rewrite add_small.
      2:{ unfold GoInt.in_range, GoInt.int_min, GoInt.int_max in *.
          unfold len in *. lia. }
      destruct (IH (total + 1)) as [-> ?]; [lia | lia |]. lia.
Qed.

Lemma TotalFree_free_cells m : valid_len m -> TotalFree m = free_cells m.
Proof.
  intros Hvalid. unfold TotalFree.
  destruct (TotalFree_loop_free_cells m 0) as [-> _]; [lia | | lia].
  unfold valid_len in Hvalid. lia.
Qed.

Lemma free_cells_insert (m : Memory) : forall n old c,
  m !! n = Some old ->
  free_cells (<[n := c]> m) = free_cells m - is_free old + is_free c.
Proof.
  induction m as [| x m IH]; intros n old c Hl; [done |].
  destruct n as [| n]; simpl in Hl.
  - injection Hl as ->. simpl. destruct old, c; simpl; lia.
  - simpl. specialize (IH n old c Hl). destruct x; lia.
Qed.

Lemma cells_ext (m m' : Memory) :
  (forall i, cell m' i = cell m i) -> m' = m.
Proof.
  intros H. apply list_eq. intros n. specialize (H (Z.of_nat n)).
  unfold cell in H. destruct (Z.leb_spec 0 (Z.of_nat n)); [| lia].
  by rewrite Nat2Z.id in H.
Qed.

(** Two memories that agree outside a range on which one is free and the
    other occupied. *)
Lemma free_cells_range n : forall (m m' : Memory) a,
  0 <= a ->
  (forall j, a <= j < a + Z.of_nat n -> cell m j = Some None) ->
  (forall j, a <= j < a + Z.of_nat n -> exists q, cell m' j = Some (Some q)) ->
  (forall j, ~ a <= j < a + Z.of_nat n -> cell m' j = cell m j) ->
  free_cells m = free_cells m' + Z.of_nat n.
Proof.
  induction n as [| n IH]; intros m m' a Ha Hfree Hocc Hout.
  - rewrite (cells_ext m m'); [lia |]. intros i. apply Hout. lia.
  - destruct (Hocc a) as [q Hq]; [lia |].
    pose proof (cell_lt_len _ _ _ Hq) as Hlt.
    apply cell_Some in Hq as [_ Hq].
    rewrite (IH m (<[Z.to_nat a := None]> m') (a + 1)); [| lia | | |].
    + rewrite (free_cells_insert _ _ _ _ Hq). simpl. lia.
    + intros j Hj. apply Hfree. lia.
    + intros j Hj. rewrite cell_insert_ne by lia. apply Hocc. lia.
    + intros j Hj. destruct (Z.eq_dec j a) as [-> | Hne].
      * rewrite cell_insert_eq by lia. symmetry. apply Hfree. lia.
      * rewrite cell_insert_ne by lia. apply Hout. lia.
Qed.

Lemma allocated_total_insert_notin ps (h : Heap) l pr :
  ~ In l ps -> allocated_total ps (<[l := pr]> h) = allocated_total ps h.
Proof.
  induction ps as [| x ps IH]; intros Hnot; [done |]. simpl.
  rewrite fn_lookup_insert_ne by (intros ->; apply Hnot; by left).
  rewrite IH; [done |]. intros H. apply Hnot. by right.
Qed.

Lemma allocated_total_insert ps (h : Heap) l pr :
  List.NoDup ps -> In l ps ->
  allocated_total ps (<[l := pr]> h) =
  allocated_total ps h - occupied (h l) + occupied pr.
Proof.
  induction ps as [| x ps IH]; intros Hnd Hin; [done |].
  apply List.NoDup_cons_iff in Hnd as [Hx Hnd]. simpl.
  destruct (decide (x = l)) as [-> | Hne].
  - rewrite fn_lookup_insert, allocated_total_insert_notin by done. lia.
  - rewrite fn_lookup_insert_ne by done.
    destruct Hin as [? | Hin]; [done |]. rewrite IH by done. lia.
Qed.

(** ** The invariant is kept by the operations that return without error *)

Section Invariant.

(** Splits the invariant into its five parts, on the fields of the state. *)
Ltac split_inv :=
  split; unfold same_identity, owners_allocated, ranges_owned, all_free_state;
  cbn [mem heap].

Variable ps : list loc.
Variable h0 : Heap.
Variable n : nat.

Hypothesis ps_nodup : List.NoDup ps.
Hypothesis unique_IDs :
  forall l1 l2, In l1 ps -> In l2 ps -> ID (h0 l1) = ID (h0 l2) -> l1 = l2.
Hypothesis positive_sizes : forall l, In l ps -> 0 < SizeInKB (h0 l).
Hypothesis none_allocated : forall l, In l ps -> IsAllocated (h0 l) = false.
Hypothesis n_small : Z.of_nat n <= GoInt.int_max.

Let N : Z := Z.of_nat n.

Lemma cell_replicate_None k i c :
  cell (replicate k None) i = Some c -> c = None.
Proof. intros [_ H]%cell_Some. by apply lookup_replicate in H as [-> _]. Qed.

Lemma free_cells_replicate k : free_cells (replicate k None) = Z.of_nat k.
Proof. induction k as [| k IH]; simpl replicate; simpl free_cells; lia. Qed.

Lemma allocated_total_none (qs : list loc) :
  (forall l, In l qs -> IsAllocated (h0 l) = false) ->
  allocated_total qs h0 = 0.
Proof.
  induction qs as [| x qs IH]; intros H; [done |]. simpl.
  unfold occupied. rewrite H by (by left). rewrite IH; [done |].
  intros l Hl. apply H. by right.
Qed.

Lemma inv_init : inv ps h0 N (all_free_state n h0).
Proof.
  split_inv.
  - unfold len. by rewrite length_replicate.
  - by intros l.
  - intros i q Hc. by apply cell_replicate_None in Hc.
  - intros l Hl Ha. by rewrite none_allocated in Ha.
  - rewrite free_cells_replicate, allocated_total_none by done. unfold N. lia.
Qed.

Lemma inv_Allocate st l start st1 :
  inv ps h0 N st -> In l ps ->
  GoInt.in_range (start + SizeInKB (h0 l)) ->
  Allocate st (Some l) start = Ret (st1, None) ->
  inv ps h0 N st1.
Proof.
  intros [Hlen Hid Hown Hrng Hcnt] Hl Hrange HA.
  destruct (Allocate_Ret_None _ _ _ _ HA)
    as (Ha & Hb & Hfree & Hne & Hheap & Hlen1 & Hin & Hout).
  destruct (Hid l) as (_ & _ & Hsz). rewrite Hsz in *.
  pose proof (positive_sizes l Hl) as Hpos.
  apply checkBounds_None in Hb as [Hstart Hstop].
  rewrite add_small in * by done.
  replace (start + SizeInKB (h0 l) - start) with (SizeInKB (h0 l)) in Hfree
    by lia.
  destruct st1 as [m1 h1]. cbn [mem heap] in *. subst h1.
  split_inv.
  - lia.
  - intros l'. destruct (decide (l = l')) as [<- | Hll].
    + rewrite fn_lookup_insert. simpl. apply Hid.
    + rewrite fn_lookup_insert_ne by done. apply Hid.
  - intros i q Hc.
    destruct (Z.le_gt_cases start i) as [Hlo | Hlo],
             (Z.lt_ge_cases i (start + SizeInKB (h0 l))) as [Hhi | Hhi].
    2,3,4: rewrite Hout in Hc by lia;
           destruct (Hown i q Hc) as (Hq & Hqa & Hqr);
           assert (l <> q) as Hlq by (intros ->; congruence).
    2,3,4: by rewrite fn_lookup_insert_ne.
    rewrite Hin in Hc by lia. injection Hc as <-.
    rewrite fn_lookup_insert. simpl. rewrite Hsz. done.
  - intros l' Hl' Hal'. destruct (decide (l = l')) as [<- | Hll].
    + rewrite fn_lookup_insert in *. simpl. rewrite Hsz.
      split; [done |]. split; [lia |]. intros i Hi. by apply Hin.
    + rewrite fn_lookup_insert_ne in * by done.
      destruct (Hrng l' Hl' Hal') as (H0 & HN & Hcells).
      split; [done |]. split; [done |]. intros i Hi.
      rewrite Hout; [by apply Hcells |]. intros Hi'.
      specialize (Hcells i Hi). rewrite Hfree in Hcells by lia. done.
  - rewrite (allocated_total_insert ps (heap st) l) by done.
    unfold occupied at 1 2. rewrite Ha. simpl. rewrite Hsz.
    rewrite (free_cells_range (Z.to_nat (SizeInKB (h0 l))) (mem st) m1 start)
      in Hcnt; rewrite ?Z2Nat.id by lia; try done; try lia.
    intros j Hj. exists l. by apply Hin.
Qed.

(** A release that returns without error on a process that is not allocated
    leaves the address space as it is. *)
Lemma ReleaseProcess_not_allocated st l st1 b :
  inv ps h0 N st -> In l ps -> IsAllocated (heap st l) = false ->
  ReleaseProcess st (Some l) = Ret (st1, b, None) ->
  st1 = mkState (mem st)
          (<[l := set_allocation (heap st l) false (-1)]> (heap st)).
Proof.
  intros [Hlen Hid Hown Hrng Hcnt] Hl Ha HR.
  destruct (checkBounds (mem st) (MemoryAddress (heap st l))
              (SizeInKB (heap st l))) as [e |] eqn:Hb.
  { by rewrite (ReleaseProcess_bounds _ _ e) in HR. }
  destruct (String.eqb_spec (ID (heap st l)) EmptyString) as [Hempty | Hne].
  { by rewrite ReleaseProcess_no_ID in HR. }
  rewrite (ReleaseProcess_loop _ _ Hb Hne) in HR.
  apply checkBounds_None in Hb as [Hstart Hstop].
  set (a := MemoryAddress (heap st l)) in *.
  set (stop := a +i SizeInKB (heap st l)) in *.
  destruct (Z.lt_ge_cases a stop) as [Hlt | Hge].
  - exfalso. destruct (trips_S _ _ Hlt) as [k Hk]. rewrite Hk in HR.
    destruct (cell_is_Some (mem st) a) as [c Hc]; [lia |].
    destruct c as [q |].
    + destruct (Hown a q Hc) as (Hq & Hqa & _).
      destruct (String.eqb_spec (ID (heap st q)) (ID (heap st l))) as [Heq | Hneq].
      * destruct (Hid q) as (Hq1 & _), (Hid l) as (Hl1 & _).
        rewrite Hq1, Hl1 in Heq. apply unique_IDs in Heq; [| done | done].
        congruence.
      * by rewrite (Release_loop_mismatch _ _ _ _ _ _ _ Hc Hneq) in HR.
    + by rewrite (Release_loop_free _ _ _ _ _ _ Hc) in HR.
  - rewrite trips_gt in HR by lia. simpl in HR. congruence.
Qed.

Lemma inv_ReleaseProcess st l st1 b :
  inv ps h0 N st -> In l ps ->
  ReleaseProcess st (Some l) = Ret (st1, b, None) ->
  inv ps h0 N st1.
Proof.
  intros Hinv Hl HR. destruct (IsAllocated (heap st l)) eqn:Ha.
  - destruct Hinv as [Hlen Hid Hown Hrng Hcnt].
    destruct (Hrng l Hl Ha) as (H0 & HN & Hcells).
    destruct (Hid l) as (_ & _ & Hsz).
    pose proof (positive_sizes l Hl) as Hpos.
    assert (GoInt.in_range
              (MemoryAddress (heap st l) + SizeInKB (heap st l))) as Hrange.
    { unfold GoInt.in_range, GoInt.int_min, GoInt.int_max, N in *. lia. }
    destruct (String.eqb_spec (ID (heap st l)) EmptyString) as [Hempty | Hne].
    { rewrite ReleaseProcess_no_ID in HR; [done | | done].
      apply checkBounds_None. rewrite add_small by done. lia. }
    destruct (ReleaseProcess_owned st l) as (m' & HR' & Hl' & Hin & Hout);
      [done | lia | lia | done | done | |].
    { intros j Hj. exists l. split; [by apply Hcells | done]. }
    rewrite HR' in HR. injection HR as <- _. clear HR'.
    set (a := MemoryAddress (heap st l)) in *.
    set (sz := SizeInKB (heap st l)) in *.
    split_inv.
    + lia.
    + intros l'. destruct (decide (l = l')) as [<- | Hll].
      * rewrite fn_lookup_insert. simpl. apply Hid.
      * rewrite fn_lookup_insert_ne by done. apply Hid.
    + intros i q Hc.
      destruct (Z.le_gt_cases a i) as [Hlo | Hlo],
               (Z.lt_ge_cases i (a + sz)) as [Hhi | Hhi].
      1: by rewrite Hin in Hc by lia.
      all: rewrite Hout in Hc by lia;
           destruct (Hown i q Hc) as (Hq & Hqa & Hqr);
           assert (l <> q) as Hlq by (intros <-; fold a sz in Hqr; lia);
           by rewrite fn_lookup_insert_ne.
    + intros l' Hl1 Hal'. destruct (decide (l = l')) as [<- | Hll].
      { by rewrite fn_lookup_insert in Hal'. }
      rewrite fn_lookup_insert_ne in * by done.
      destruct (Hrng l' Hl1 Hal') as (H0' & HN' & Hcells').
      split; [done |]. split; [done |]. intros i Hi.
      rewrite Hout; [by apply Hcells' |]. intros Hi'.
      specialize (Hcells' i Hi). rewrite Hcells in Hcells' by done. congruence.
    + rewrite (allocated_total_insert ps (heap st) l) by done.
      unfold occupied at 1 2. rewrite Ha. simpl. fold sz.
      rewrite (free_cells_range (Z.to_nat sz) m' (mem st) a);
        rewrite ?Z2Nat.id by lia; try done; try lia.
      * intros j Hj. exists l. by apply Hcells.
      * intros j Hj. symmetry. by apply Hout.
  - rewrite (ReleaseProcess_not_allocated _ _ _ _ Hinv Hl Ha HR).
    destruct Hinv as [Hlen Hid Hown Hrng Hcnt]. split_inv.
    + done.
    + intros l'. destruct (decide (l = l')) as [<- | Hll].
      * rewrite fn_lookup_insert. simpl. apply Hid.
      * rewrite fn_lookup_insert_ne by done. apply Hid.
    + intros i q Hc. destruct (Hown i q Hc) as (Hq & Hqa & Hqr).
      assert (l <> q) as Hlq by (intros ->; congruence).
      by rewrite fn_lookup_insert_ne.
    + intros l' Hl1 Hal'. destruct (decide (l = l')) as [<- | Hll].
      { by rewrite fn_lookup_insert in Hal'. }
      rewrite fn_lookup_insert_ne in * by done. by apply Hrng.
    + rewrite (allocated_total_insert ps (heap st) l) by done.
      unfold occupied at 1 2. rewrite Ha. simpl. lia.
Qed.

Lemma inv_valid_len st : inv ps h0 N st -> valid_len (mem st).
Proof. intros [Hlen _ _ _ _]. unfold valid_len, N in *. lia. Qed.

Lemma inv_AllocateWorstFit st l st1 :
  inv ps h0 N st -> In l ps ->
  AllocateWorstFit st (Some l) = Ret (st1, None) ->
  inv ps h0 N st1.
Proof.
  intros Hinv Hl HA.
  pose proof (inv_valid_len _ Hinv) as Hvalid.
  destruct (inv_identity _ _ _ _ Hinv l) as (_ & _ & Hsz).
  pose proof (positive_sizes l Hl) as Hpos. rewrite <- Hsz in Hpos.
  destruct (AllocateWorstFit_Ret_None _ _ _ Hvalid Hpos HA)
    as (start & HA' & Hstart & Hend).
  apply (inv_Allocate st l start); [done | done | | done].
  rewrite <- Hsz.
  unfold valid_len, GoInt.in_range, GoInt.int_min, GoInt.int_max in *. lia.
Qed.

Lemma inv_step st o st1 :
  inv ps h0 N st -> op_ok ps h0 o -> step st o = Some st1 ->
  inv ps h0 N st1.
Proof.
  intros Hinv [Hl Hok] Hstep.
  destruct o as [l start | l | l]; unfold step in Hstep; cbn [op_process] in Hl.
  - destruct (Allocate st (Some l) start) as [[st' [e |]] | p] eqn:HA;
      try done.
    injection Hstep as <-. by apply (inv_Allocate st l start).
  - destruct (AllocateWorstFit st (Some l)) as [[st' [e |]] | p] eqn:HA;
      try done.
    injection Hstep as <-. by apply (inv_AllocateWorstFit st l).
  - destruct (ReleaseProcess st (Some l)) as [[[st' b] [e |]] | p] eqn:HR;
      try done.
    injection Hstep as <-. by apply (inv_ReleaseProcess st l st' b).
Qed.

Lemma inv_run ops : forall st st1,
  inv ps h0 N st -> Forall (op_ok ps h0) ops -> run st ops = Some st1 ->
  inv ps h0 N st1.
Proof.
  induction ops as [| o ops IH]; intros st st1 Hinv Hok Hrun; simpl in Hrun.
  - by injection Hrun as <-.
  - inversion Hok as [| o' ops' Ho Hok']; subst.
    destruct (step st o) as [st' |] eqn:Hstep; [| done].
    apply (IH st'); [by apply (inv_step st o) | done | done].
Qed.

(** X21, exclusivity (supporting C3): after any sequence of operations that
    returned without error, none of them an [Allocate] whose
    [start + SizeInKB] overflows, every occupied cell belongs to an allocated
    process whose recorded range holds it, the cells of an allocated process
    are exactly those of its recorded range, and the ranges of two allocated
    processes do not meet. *)
Theorem reachable_exclusive ops st :
  Forall (op_ok ps h0) ops ->
  run (all_free_state n h0) ops = Some st ->
  len (mem st) = N /\
  (forall i q, cell (mem st) i = Some (Some q) ->
     In q ps /\ IsAllocated (heap st q) = true) /\
  (forall l, In l ps -> IsAllocated (heap st l) = true ->
     0 <= MemoryAddress (heap st l) /\
     MemoryAddress (heap st l) + SizeInKB (heap st l) <= N /\
     forall i, cell (mem st) i = Some (Some l) <->
               MemoryAddress (heap st l) <= i
                 < MemoryAddress (heap st l) + SizeInKB (heap st l)) /\
  (forall l1 l2 i, In l1 ps -> In l2 ps ->
     IsAllocated (heap st l1) = true -> IsAllocated (heap st l2) = true ->
     ID (heap st l1) <> ID (heap st l2) ->
     MemoryAddress (heap st l1) <= i
       < MemoryAddress (heap st l1) + SizeInKB (heap st l1) ->
     MemoryAddress (heap st l2) <= i
       < MemoryAddress (heap st l2) + SizeInKB (heap st l2) ->
     False).
Proof.
  intros Hok Hrun.
  destruct (inv_run ops _ _ inv_init Hok Hrun) as [Hlen Hid Hown Hrng Hcnt].
  split; [done |]. split; [| split].
  - intros i q Hc. destruct (Hown i q Hc) as (? & ? & _). done.
  - intros l Hl Ha. destruct (Hrng l Hl Ha) as (H0 & HN & Hcells).
    split; [done |]. split; [done |]. intros i. split; [| by apply Hcells].
    intros Hc. by destruct (Hown i l Hc) as (_ & _ & ?).
  - intros l1 l2 i Hl1 Hl2 Ha1 Ha2 Hne Hi1 Hi2.
    destruct (Hrng l1 Hl1 Ha1) as (_ & _ & Hc1).
    destruct (Hrng l2 Hl2 Ha2) as (_ & _ & Hc2).
    specialize (Hc1 i Hi1). rewrite (Hc2 i Hi2) in Hc1. congruence.
Qed.

(** X22, conservation (supporting C8): after any such sequence, [TotalFree] and
    the sizes of the allocated processes add up to the length of the address
    space. *)
Theorem reachable_conservation ops st :
  Forall (op_ok ps h0) ops ->
  run (all_free_state n h0) ops = Some st ->
  TotalFree (mem st) + allocated_total ps (heap st) = N /\ len (mem st) = N.
Proof.
  intros Hok Hrun.
  pose proof (inv_run ops _ _ inv_init Hok Hrun) as Hinv.
  rewrite TotalFree_free_cells by (by apply inv_valid_len).
  by destruct Hinv.
Qed.

End Invariant.

(** The validation of [Allocate] when [start + SizeInKB] does not overflow
    (supporting C4): the checks in their order, the first failure winning,
    every failure returning the state it was given; on success the cells of
    [[start, start+SizeInKB)] refer to the process, the other cells are as
    before, and the process is marked allocated at [start]. *)
Theorem Allocate_validation st l start :
  GoInt.in_range (start + SizeInKB (heap st l)) ->
  let sz := SizeInKB (heap st l) in
  let N := len (mem st) in
  (IsAllocated (heap st l) = true ->
     Allocate st (Some l) start = Ret (st, Some AlreadyInMemory)) /\
  (IsAllocated (heap st l) = false ->
     (start < 0 \/ start + sz > N ->
        exists e, Allocate st (Some l) start = Ret (st, Some e) /\
                  kind e = OutOfBounds) /\
     (0 <= start -> start + sz <= N ->
        (~ all_free (mem st) start sz ->
           Allocate st (Some l) start = Ret (st, Some AlreadyOccupied)) /\
        (all_free (mem st) start sz ->
           (ID (heap st l) = EmptyString ->
              Allocate st (Some l) start = Ret (st, Some AllocateNoID)) /\
           (ID (heap st l) <> EmptyString ->
              exists m',
                Allocate st (Some l) start =
                  Ret (mkState m'
                         (<[l := set_allocation (heap st l) true start]>
                            (heap st)), None) /\
                len m' = N /\
                (forall j, start <= j < start + sz ->
                   cell m' j = Some (Some l)) /\
                (forall j, ~ start <= j < start + sz ->
                   cell m' j = cell (mem st) j))))).
Proof.
  intros Hrange sz N. subst sz N.
  pose proof (add_small _ _ Hrange) as Hsum.
  split; [apply Allocate_already |]. intros Ha. split.
  - intros Hout.
    destruct (checkBounds (mem st) start (SizeInKB (heap st l)))
      as [e |] eqn:Hb.
    + exists e. split; [by apply Allocate_bounds |].
      by apply checkBounds_kind in Hb.
    + apply checkBounds_None in Hb. lia.
  - intros Hstart Hstop.
    assert (checkBounds (mem st) start (SizeInKB (heap st l)) = None) as Hb.
    { apply checkBounds_None. rewrite Hsum. done. }
    assert (start +i SizeInKB (heap st l) - start = SizeInKB (heap st l))
      as Hlen by lia.
    split.
    + intros Hocc. apply Allocate_occupied; [done | done |]. by rewrite Hlen.
    + intros Hfree. split.
      * intros Hid. apply Allocate_no_ID; [done | done | | done].
        by rewrite Hlen.
      * intros Hid.
        destruct (Allocate_success st l start) as (m' & HA & H1 & H2 & H3);
          [done | done | by rewrite Hlen | done |].
        rewrite Hsum in *. eauto.
Qed.

(** ** The overflow of the bounds check *)

(** C4: with [start = MaxInt] and a size of 3 the sum [start + SizeInKB]
    exceeds [N = 10], yet [Allocate] returns no error: the check compares the
    wrapped sum.  No cell is written, and the process is marked allocated at
    [start]. *)
Theorem Allocate_overflow_accepted :
  GoInt.int_max + SizeInKB (heap ScenarioA.st0 0%nat) > len (mem ScenarioA.st0) /\
  exists st1,
    Allocate ScenarioA.st0 (Some 0%nat) GoInt.int_max = Ret (st1, None) /\
    mem st1 = mem ScenarioA.st0 /\
    IsAllocated (heap st1 0%nat) = true /\
    MemoryAddress (heap st1 0%nat) = GoInt.int_max.
Proof. split; [reflexivity |]. eexists. repeat split; reflexivity. Qed.

(** C7: the process allocated at [start = MaxInt] is released without an
    error, and the release returns [false]. *)
Theorem Allocate_overflow_release_false :
  0 < SizeInKB (heap ScenarioA.st0 0%nat) /\
  exists st1 st2,
    Allocate ScenarioA.st0 (Some 0%nat) GoInt.int_max = Ret (st1, None) /\
    ReleaseProcess st1 (Some 0%nat) = Ret (st2, false, None).
Proof. split; [reflexivity |]. eexists _, _. split; reflexivity. Qed.

(** C3: after the successful [Allocate] at [start = MaxInt] the process is
    allocated, with a size of 3, and every cell is free: it owns none. *)
Theorem Allocate_overflow_no_cells :
  exists st1,
    run (all_free_state 10 ScenarioA.procs) [OpAllocate 0%nat GoInt.int_max]
      = Some st1 /\
    IsAllocated (heap st1 0%nat) = true /\
    SizeInKB (heap st1 0%nat) = 3 /\
    mem st1 = replicate 10 None.
Proof. eexists. repeat split; reflexivity. Qed.

(** C8: after the successful [Allocate] at [start = MaxInt] the free cells
    and the sizes of the allocated processes add up to 13, not to [N = 10]. *)
Theorem Allocate_overflow_conservation :
  exists st1,
    run (all_free_state 10 ScenarioA.procs) [OpAllocate 0%nat GoInt.int_max]
      = Some st1 /\
    TotalFree (mem st1) + allocated_total [0; 1; 2]%nat (heap st1) = 13 /\
    len (mem st1) = 10.
Proof. eexists. repeat split; reflexivity. Qed.

(** * Further properties of the allocator *)

(** ** HasSpace and WorstFit *)

Lemma free_cells_bounds m : 0 <= free_cells m <= len m.
Proof.
  induction m as [| c m IH]; [unfold len; simpl; lia |].
  assert (len (c :: m) = 1 + len m) as -> by (unfold len; simpl length; lia).
  destruct c; simpl; lia.
Qed.

Lemma all_free_le_free_cells n : forall (m : Memory) s,
  0 <= s -> all_free m s (Z.of_nat n) -> Z.of_nat n <= free_cells m.
Proof.
  induction n as [| n IH]; intros m s Hs Hfree.
  - pose proof (free_cells_bounds m). lia.
  - assert (cell m s = Some None) as Hc by (apply Hfree; lia).
    pose proof (cell_lt_len _ _ _ Hc) as Hlt.
    apply cell_Some in Hc as [_ Hc].
    pose proof (free_cells_insert m _ _ (Some 0%nat) Hc) as Hins.
    unfold is_free in Hins.
    assert (Z.of_nat n <= free_cells m - 1 + 0) as Hn; [| lia].
    rewrite <- Hins. apply (IH _ (s + 1)); [lia |]. intros j Hj.
    rewrite cell_insert_ne by lia. apply Hfree. lia.
Qed.

Lemma free_run_le_free_cells m s l : free_run m s l -> l <= free_cells m.
Proof.
  intros Hrun. pose proof (free_run_in_len _ _ _ Hrun) as [Hs _].
  destruct Hrun as [Hl Hfree].
  rewrite <- (Z2Nat.id l) by lia. apply (all_free_le_free_cells _ m s); [done |].
  by rewrite Z2Nat.id by lia.
Qed.

(** X1: [HasSpace] answers true exactly when the size asked for is not
    positive or some contiguous range of at least that many free cells
    exists. *)
Theorem HasSpace_iff_free_run (m : Memory) (size : Z) :
  valid_len m ->
  HasSpace m size = true <->
  size <= 0 \/ exists s l, free_run m s l /\ size <= l.
Proof.
  intros Hvalid. unfold HasSpace.
  destruct (WorstFit_best m size Hvalid) as (bs & bsz & -> & Hmax & Hbest).
  assert (0 <= bsz) as Hnn.
  { destruct Hbest as [[-> _] | [[? _] _]]; lia. }
  destruct (Z.gtb_spec size bsz) as [Hgt | Hle]; split; try done.
  - intros [Hneg | (s & l & Hrun & Hl)]; [lia |].
    destruct (Hmax s l Hrun) as [? _]; [by apply free_run_in_len | lia].
  - intros _. destruct (Z.le_gt_cases size 0) as [? | Hpos]; [by left |].
    right. destruct Hbest as [[-> _] | [Hrun _]]; [lia | eauto].
Qed.

Lemma HasSpace_iff_free_run_witness :
  HasSpace [None; Some 0%nat; None; None] 2 = true <->
  2 <= 0 \/ exists s l, free_run [None; Some 0%nat; None; None] s l /\ 2 <= l.
Proof.
  apply (HasSpace_iff_free_run [None; Some 0%nat; None; None] 2).
  unfold valid_len, len, GoInt.int_max. simpl. lia.
Defined.

(** X2: what [WorstFit] returns lies in the address space and is never more
    than [TotalFree]: the size is between 0 and [TotalFree()], and either it
    is 0 with start -1 or the range [[start, start+size)] is inside
    [[0, len(m))]. *)
Theorem WorstFit_within_TotalFree (m : Memory) (size : Z) :
  valid_len m ->
  exists start found err,
    WorstFit m size = (start, found, err) /\
    0 <= found <= TotalFree m /\
    ((found = 0 /\ start = -1) \/
     (1 <= found /\ 0 <= start /\ start + found <= len m)).
Proof.
  intros Hvalid.
  destruct (WorstFit_best m size Hvalid) as (bs & bsz & -> & _ & Hbest).
  eexists _, _, _. split; [done |].
  rewrite TotalFree_free_cells by done.
  destruct Hbest as [[-> ->] | [Hrun Hend]].
  - pose proof (free_cells_bounds m). split; [lia | by left].
  - pose proof (free_run_le_free_cells _ _ _ Hrun).
    pose proof (free_run_in_len _ _ _ Hrun). destruct Hrun as [? _].
    split; [lia | right; lia].
Qed.

Lemma WorstFit_within_TotalFree_witness :
  exists start found err,
    WorstFit [None; Some 0%nat; None; None] 2 = (start, found, err) /\
    0 <= found <= TotalFree [None; Some 0%nat; None; None] /\
    ((found = 0 /\ start = -1) \/
     (1 <= found /\ 0 <= start /\
      start + found <= len [None; Some 0%nat; None; None])).
Proof.
  apply (WorstFit_within_TotalFree [None; Some 0%nat; None; None] 2).
  unfold valid_len, len, GoInt.int_max. simpl. lia.
Defined.

(** X3: when [HasSpace(size)] is true, [size] is at most [TotalFree()]: total
    free space is necessary for a fit (it is not sufficient, the free cells
    may be scattered). *)
Theorem HasSpace_le_TotalFree (m : Memory) (size : Z) :
  valid_len m -> HasSpace m size = true -> size <= TotalFree m.
Proof.
  intros Hvalid Hhas. rewrite TotalFree_free_cells by done.
  unfold HasSpace in Hhas.
  destruct (WorstFit_best m size Hvalid) as (bs & bsz & HW & _ & Hbest).
  rewrite HW in Hhas.
  destruct (Z.gtb_spec size bsz) as [Hgt | Hle]; [done |].
  destruct Hbest as [[-> _] | [Hrun _]].
  - pose proof (free_cells_bounds m). lia.
  - pose proof (free_run_le_free_cells _ _ _ Hrun). lia.
Qed.

Lemma HasSpace_le_TotalFree_witness :
  2 <= TotalFree [None; Some 0%nat; None; None].
Proof.
  apply (HasSpace_le_TotalFree [None; Some 0%nat; None; None] 2).
  - unfold valid_len, len, GoInt.int_max. simpl. lia.
  - reflexivity.
Defined.

Lemma all_free_replicate n : all_free (replicate n None) 0 (Z.of_nat n).
Proof.
  intros i Hi. apply cell_Some. split; [lia |].
  apply lookup_replicate. split; [done | lia].
Qed.

(** X4: on an address space of [n > 0] cells that are all free, [WorstFit]
    returns start 0 and size [n], with the error exactly when the size asked
    for exceeds [n]. *)
Theorem WorstFit_all_free (n : nat) (size : Z) :
  (0 < n)%nat -> Z.of_nat n <= GoInt.int_max ->
  WorstFit (replicate n None) size =
    (0, Z.of_nat n, if size >? Z.of_nat n then Some NotEnoughSpace else None).
Proof.
  intros Hn Hmax.
  assert (len (replicate n None) = Z.of_nat n) as Hlen
    by (unfold len; by rewrite length_replicate).
  destruct (WorstFit_best (replicate n None) size) as (bs & bsz & -> & Hm & Hb).
  { unfold valid_len. by rewrite Hlen. }
  assert (free_run (replicate n None) 0 (Z.of_nat n)) as Hrun.
  { split; [lia | apply all_free_replicate]. }
  destruct (Hm 0 (Z.of_nat n) Hrun) as [Hle Htie]; [rewrite Hlen; lia |].
  destruct Hb as [[-> _] | [Hrun' Hend]]; [lia |].
  pose proof (free_run_in_len _ _ _ Hrun') as [Hs _]. rewrite Hlen in Hend.
  assert (bsz = Z.of_nat n) as -> by lia.
  assert (bs = 0) as -> by lia. done.
Qed.

Lemma WorstFit_all_free_witness :
  WorstFit (replicate 10 None) 5 =
    (0, Z.of_nat 10, if 5 >? Z.of_nat 10 then Some NotEnoughSpace else None).
Proof.
  apply (WorstFit_all_free 10 5); [lia | unfold GoInt.int_max; lia].
Defined.

(** ** isEmpty and hardRelease *)


Lemma hardRelease_loop_Allocate_loop n : forall m i,
  hardRelease_loop m i n = Allocate_loop m None i n.
Proof.
  induction n as [| n IH]; intros m i; simpl; [done |].
  destruct (set m i None); simpl; [apply IH | done].
Qed.

Lemma checkBounds_same_len (m m' : Memory) start offset :
  len m' = len m -> checkBounds m' start offset = checkBounds m start offset.
Proof. unfold checkBounds. by intros ->. Qed.

Lemma hardRelease_in_bounds m start offset :
  checkBounds m start offset = None ->
  exists m',
    hardRelease m start offset = Ret (m', None) /\ len m' = len m /\
    (forall j, start <= j < start +i offset -> cell m' j = Some None) /\
    (forall j, ~ start <= j < start +i offset -> cell m' j = cell m j).
Proof.
  intros Hb. unfold hardRelease. rewrite Hb, hardRelease_loop_Allocate_loop.
  apply checkBounds_None in Hb as [Hstart Hstop].
  destruct (Allocate_loop_range None m start (start +i offset))
    as (m' & -> & Hl & Hin & Hout); [done | done | apply wrap_in_range |].
  exists m'. done.
Qed.

(** X6: [hardRelease] never panics.  When the bounds check fails it returns
    that error and the memory as it was; otherwise it returns no error and a
    memory of the same length in which every cell of the range is free, the
    other cells are unchanged, and on which [isEmpty] of the same range is
    true. *)
Theorem hardRelease_clears (m : Memory) (start offset : Z) :
  exists m',
    hardRelease m start offset = Ret (m', checkBounds m start offset) /\
    len m' = len m /\
    (checkBounds m start offset <> None -> m' = m) /\
    (checkBounds m start offset = None ->
       (forall j, start <= j < start +i offset -> cell m' j = Some None) /\
       (forall j, ~ start <= j < start +i offset -> cell m' j = cell m j) /\
       isEmpty m' start offset = Ret true).
Proof.
  destruct (checkBounds m start offset) as [e |] eqn:Hb.
  - exists m. unfold hardRelease. rewrite Hb. done.
  - destruct (hardRelease_in_bounds _ _ _ Hb) as (m' & HR & Hl & Hin & Hout).
    exists m'. split; [done |]. split; [done |]. split; [done |]. intros _.
    split; [done |]. split; [done |].
    destruct (isEmpty_spec m' start offset) as (b & -> & Hfree).
    { by rewrite (checkBounds_same_len m). }
    f_equal. apply Hfree. intros j Hj. apply Hin. lia.
Qed.

(** X7: [hardRelease] of the range a successful [Allocate] has just written
    gives back the memory as it was before the allocation. *)
Theorem hardRelease_undoes_Allocate (st : State) (l : loc) (start : Z)
    (st1 : State) :
  Allocate st (Some l) start = Ret (st1, None) ->
  hardRelease (mem st1) start (SizeInKB (heap st l)) = Ret (mem st, None).
Proof.
  intros HA.
  destruct (Allocate_Ret_None _ _ _ _ HA)
    as (_ & Hb & Hfree & _ & _ & Hlen & Hin & Hout).
  destruct (hardRelease_in_bounds (mem st1) start (SizeInKB (heap st l)))
    as (m' & -> & Hl & Hin' & Hout').
  { by rewrite (checkBounds_same_len (mem st)). }
  do 2 f_equal. apply cells_ext. intros i.
  destruct (Z.le_gt_cases start i) as [Hlo | Hlo],
           (Z.lt_ge_cases i (start +i SizeInKB (heap st l))) as [Hhi | Hhi].
  2,3,4: rewrite Hout' by lia; apply Hout; lia.
  rewrite Hin' by lia. symmetry. apply Hfree. lia.
Qed.

Lemma hardRelease_undoes_Allocate_witness :
  exists st1,
    Allocate ScenarioA.st0 (Some 0%nat) 0 = Ret (st1, None) /\
    hardRelease (mem st1) 0 (SizeInKB (heap ScenarioA.st0 0%nat))
      = Ret (mem ScenarioA.st0, None).
Proof.
  eexists. split; [reflexivity |].
  apply (hardRelease_undoes_Allocate ScenarioA.st0 0%nat 0). reflexivity.
Defined.

(** ** Allocate *)

(** X8: once [Allocate] has placed a process, any further [Allocate] of that
    process, at any start, returns the [AlreadyInMemory] error and changes
    nothing. *)
Theorem Allocate_twice (st : State) (l : loc) (start start' : Z) (st1 : State) :
  Allocate st (Some l) start = Ret (st1, None) ->
  Allocate st1 (Some l) start' = Ret (st1, Some AlreadyInMemory).
Proof.
  intros HA.
  destruct (Allocate_Ret_None _ _ _ _ HA) as (_ & _ & _ & _ & Hheap & _).
  apply Allocate_already. by rewrite Hheap, fn_lookup_insert.
Qed.

Lemma Allocate_twice_witness :
  exists st1,
    Allocate ScenarioA.st0 (Some 0%nat) 0 = Ret (st1, None) /\
    Allocate st1 (Some 0%nat) 5 = Ret (st1, Some AlreadyInMemory).
Proof.
  eexists. split; [reflexivity |].
  apply (Allocate_twice ScenarioA.st0 0%nat 0 5). reflexivity.
Defined.

(** X9: after [Allocate] has placed a process on [[start, start+SizeInKB)],
    [Allocate] of another, not allocated process on a range of the address
    space that shares a cell with it returns the [AlreadyOccupied] error and
    changes nothing (the two sums being in the range of [int]). *)
Theorem Allocate_overlap_rejected (st : State) (l q : loc) (start start' : Z)
    (st1 : State) :
  Allocate st (Some l) start = Ret (st1, None) ->
  GoInt.in_range (start + SizeInKB (heap st l)) ->
  GoInt.in_range (start' + SizeInKB (heap st q)) ->
  q <> l -> IsAllocated (heap st q) = false ->
  0 <= start' -> start' + SizeInKB (heap st q) <= len (mem st) ->
  (exists i, start <= i < start + SizeInKB (heap st l) /\
             start' <= i < start' + SizeInKB (heap st q)) ->
  Allocate st1 (Some q) start' = Ret (st1, Some AlreadyOccupied).
Proof.
  intros HA Hrange Hrange' Hql Hq Hstart' Hend' (i & Hi & Hi').
  destruct (Allocate_Ret_None _ _ _ _ HA)
    as (_ & Hb & _ & _ & Hheap & Hlen & Hin & _).
  apply checkBounds_None in Hb as [Hstart Hstop].
  rewrite add_small in * by done.
  assert (heap st1 q = heap st q) as Hsame.
  { rewrite Hheap. by apply fn_lookup_insert_ne. }
  apply Allocate_occupied; rewrite Hsame.
  - done.
  - apply checkBounds_None. rewrite add_small by done. lia.
  - rewrite add_small by done. intros Hfree.
    specialize (Hfree i ltac:(lia)). rewrite Hin in Hfree by done. done.
Qed.

Lemma Allocate_overlap_rejected_witness :
  exists st1,
    Allocate ScenarioA.st0 (Some 0%nat) 0 = Ret (st1, None) /\
    Allocate st1 (Some 1%nat) 2 = Ret (st1, Some AlreadyOccupied).
Proof.
  eexists. split; [reflexivity |].
  apply (Allocate_overlap_rejected ScenarioA.st0 0%nat 1%nat 0 2);
    [reflexivity | | | discriminate | reflexivity | lia | | ].
  - unfold GoInt.in_range, GoInt.int_min, GoInt.int_max. simpl. lia.
  - unfold GoInt.in_range, GoInt.int_min, GoInt.int_max. simpl. lia.
  - unfold len. simpl. lia.
  - exists 2. simpl. lia.
Defined.

(** X10: a successful [Allocate] of a process of size [SizeInKB >= 0], the
    sum [start + SizeInKB] being in the range of [int], lowers [TotalFree] by
    exactly [SizeInKB]. *)
Theorem Allocate_TotalFree (st : State) (l : loc) (start : Z) (st1 : State) :
  valid_len (mem st) ->
  0 <= SizeInKB (heap st l) ->
  GoInt.in_range (start + SizeInKB (heap st l)) ->
  Allocate st (Some l) start = Ret (st1, None) ->
  TotalFree (mem st1) = TotalFree (mem st) - SizeInKB (heap st l).
Proof.
  intros Hvalid Hsz Hrange HA.
  destruct (Allocate_Ret_None _ _ _ _ HA)
    as (_ & Hb & Hfree & _ & _ & Hlen & Hin & Hout).
  apply checkBounds_None in Hb as [Hstart _].
  rewrite add_small in * by done.
  rewrite !TotalFree_free_cells; [| done | unfold valid_len; by rewrite Hlen].
  rewrite (free_cells_range (Z.to_nat (SizeInKB (heap st l)))
             (mem st) (mem st1) start);
    rewrite ?Z2Nat.id by lia; try done; try lia.
  - intros j Hj. apply Hfree. lia.
  - intros j Hj. exists l. by apply Hin.
Qed.

Lemma Allocate_TotalFree_witness :
  exists st1,
    Allocate ScenarioA.st0 (Some 0%nat) 0 = Ret (st1, None) /\
    TotalFree (mem st1)
      = TotalFree (mem ScenarioA.st0) - SizeInKB (heap ScenarioA.st0 0%nat).
Proof.
  eexists. split; [reflexivity |].
  apply (Allocate_TotalFree ScenarioA.st0 0%nat 0); [| | | reflexivity].
  - unfold valid_len, len, GoInt.int_max. simpl. lia.
  - simpl. lia.
  - unfold GoInt.in_range, GoInt.int_min, GoInt.int_max. simpl. lia.
Defined.

(** X11: [Allocate] followed by [ReleaseProcess] of the same process (of
    positive size, [start + SizeInKB] in the range of [int]) is a round trip
    on the state: the release succeeds with [true], the memory is the one
    before the allocation, every other process is untouched, and the process
    differs from what it was only by [IsAllocated = false] and
    [MemoryAddress = -1]. *)
Theorem Allocate_ReleaseProcess_restores (st : State) (l : loc) (start : Z)
    (st1 : State) :
  0 < SizeInKB (heap st l) ->
  GoInt.in_range (start + SizeInKB (heap st l)) ->
  Allocate st (Some l) start = Ret (st1, None) ->
  exists st2,
    ReleaseProcess st1 (Some l) = Ret (st2, true, None) /\
    mem st2 = mem st /\
    heap st2 l = set_allocation (heap st l) false (-1) /\
    forall q, q <> l -> heap st2 q = heap st q.
Proof.
  intros Hsz Hrange HA.
  destruct (Allocate_Ret_None _ _ _ _ HA)
    as (Ha & Hb & Hfree & Hid & Hheap & Hlen & Hin & Hout).
  apply checkBounds_None in Hb as [Hstart Hstop].
  rewrite add_small in * by done.
  assert (heap st1 l = set_allocation (heap st l) true start) as Hl.
  { by rewrite Hheap, fn_lookup_insert. }
  destruct (ReleaseProcess_owned st1 l) as (m' & HR & Hl' & Hin' & Hout').
  { rewrite Hl. simpl. lia. }
  { rewrite Hl. simpl. lia. }
  { rewrite Hl. simpl. lia. }
  { by rewrite Hl. }
  { by rewrite Hl. }
  { rewrite Hl. simpl. intros j Hj. exists l. split; [by apply Hin |].
    by rewrite Hl. }
  rewrite Hl in HR, Hin', Hout'. simpl in HR, Hin', Hout'.
  destruct (Z.eqb_spec (SizeInKB (heap st l)) 0) as [? | _]; [lia |].
  eexists. split; [exact HR |]. cbn [mem heap]. split; [| split].
  - apply cells_ext. intros i.
    destruct (Z.le_gt_cases start i) as [Hlo | Hlo],
             (Z.lt_ge_cases i (start + SizeInKB (heap st l))) as [Hhi | Hhi].
    2,3,4: rewrite Hout' by lia; apply Hout; lia.
    rewrite Hin' by lia. symmetry. apply Hfree. lia.
  - by rewrite fn_lookup_insert.
  - intros q Hq. rewrite fn_lookup_insert_ne by done.
    rewrite Hheap. by apply fn_lookup_insert_ne.
Qed.

Lemma Allocate_ReleaseProcess_restores_witness :
  exists st1 st2,
    Allocate ScenarioA.st0 (Some 0%nat) 0 = Ret (st1, None) /\
    ReleaseProcess st1 (Some 0%nat) = Ret (st2, true, None) /\
    mem st2 = mem ScenarioA.st0 /\
    heap st2 0%nat = set_allocation (heap ScenarioA.st0 0%nat) false (-1) /\
    forall q, q <> 0%nat -> heap st2 q = heap ScenarioA.st0 q.
Proof.
  assert (0 < SizeInKB (heap ScenarioA.st0 0%nat)) as Hsz by reflexivity.
  assert (GoInt.in_range (0 + SizeInKB (heap ScenarioA.st0 0%nat))) as Hrange.
  { unfold GoInt.in_range, GoInt.int_min, GoInt.int_max. simpl. lia. }
  destruct (Allocate_ReleaseProcess_restores ScenarioA.st0 0%nat 0 _
              Hsz Hrange eq_refl) as (st2 & H).
  eexists _, st2. split; [reflexivity | exact H].
Defined.

(** ** AllocateWorstFit *)

(** X12: [AllocateWorstFit] of a process of positive size.  Without a free
    run of that size it returns [NotEnoughSpace] and changes nothing, whatever
    the process.  With one, it returns [AlreadyInMemory] for an allocated
    process and [AllocateNoID] for one without ID, and otherwise succeeds:
    the process is placed at the start [WorstFit] returns, its cells refer to
    it, and the other cells are unchanged.  It never returns an out-of-bounds
    or an occupied-space error. *)
Theorem AllocateWorstFit_outcome (st : State) (l : loc) :
  valid_len (mem st) -> 0 < SizeInKB (heap st l) ->
  let size := SizeInKB (heap st l) in
  (HasSpace (mem st) size = false ->
     AllocateWorstFit st (Some l) = Ret (st, Some NotEnoughSpace)) /\
  (HasSpace (mem st) size = true ->
     (IsAllocated (heap st l) = true ->
        AllocateWorstFit st (Some l) = Ret (st, Some AlreadyInMemory)) /\
     (IsAllocated (heap st l) = false -> ID (heap st l) = EmptyString ->
        AllocateWorstFit st (Some l) = Ret (st, Some AllocateNoID)) /\
     (IsAllocated (heap st l) = false -> ID (heap st l) <> EmptyString ->
        exists st1 start found,
          WorstFit (mem st) size = (start, found, None) /\
          AllocateWorstFit st (Some l) = Ret (st1, None) /\
          heap st1 l = set_allocation (heap st l) true start /\
          (forall q, q <> l -> heap st1 q = heap st q) /\
          (forall j, start <= j < start + size ->
             cell (mem st1) j = Some (Some l)) /\
          (forall j, ~ start <= j < start + size ->
             cell (mem st1) j = cell (mem st) j))).
Proof.
  intros Hvalid Hsz size. subst size.
  unfold HasSpace, AllocateWorstFit.
  destruct (WorstFit_best (mem st) (SizeInKB (heap st l)) Hvalid)
    as (bs & bsz & -> & _ & Hbest).
  destruct (Z.gtb_spec (SizeInKB (heap st l)) bsz) as [Hgt | Hle].
  { split; [done | intros [=]]. }
  split; [intros [=] |]. intros _.
  destruct Hbest as [[-> _] | [Hrun Hend]]; [lia |].
  pose proof (free_run_in_len _ _ _ Hrun) as [Hbs _]. destruct Hrun as [_ Hfree].
  assert (GoInt.in_range (bs + SizeInKB (heap st l))) as Hrange.
  { unfold valid_len, GoInt.in_range, GoInt.int_min, GoInt.int_max in *. lia. }
  pose proof (add_small _ _ Hrange) as Hsum.
  assert (checkBounds (mem st) bs (SizeInKB (heap st l)) = None) as Hb.
  { apply checkBounds_None. rewrite Hsum. lia. }
  assert (all_free (mem st) bs (bs +i SizeInKB (heap st l) - bs)) as Hall.
  { intros j Hj. apply Hfree. lia. }
  split; [apply Allocate_already |].
  split; [intros Ha Hid; by apply Allocate_no_ID |].
  intros Ha Hid.
  destruct (Allocate_success st l bs Ha Hb Hall Hid)
    as (m' & HA & Hl & Hin & Hout).
  rewrite Hsum in *.
  eexists _, bs, bsz. split; [done |]. split; [exact HA |]. cbn [mem heap].
  split; [by rewrite fn_lookup_insert |].
  split; [intros q Hq; by apply fn_lookup_insert_ne |]. done.
Qed.

Lemma AllocateWorstFit_outcome_witness :
  exists st1 start found,
    WorstFit (mem ScenarioA.st0) 3 = (start, found, None) /\
    AllocateWorstFit ScenarioA.st0 (Some 0%nat) = Ret (st1, None) /\
    heap st1 0%nat = set_allocation (heap ScenarioA.st0 0%nat) true start /\
    (forall q, q <> 0%nat -> heap st1 q = heap ScenarioA.st0 q) /\
    (forall j, start <= j < start + 3 -> cell (mem st1) j = Some (Some 0%nat)) /\
    (forall j, ~ start <= j < start + 3 ->
       cell (mem st1) j = cell (mem ScenarioA.st0) j).
Proof.
  assert (valid_len (mem ScenarioA.st0)) as Hvalid.
  { unfold valid_len, len, GoInt.int_max. simpl. lia. }
  assert (0 < SizeInKB (heap ScenarioA.st0 0%nat)) as Hsz by reflexivity.
  destruct (AllocateWorstFit_outcome ScenarioA.st0 0%nat Hvalid Hsz)
    as (_ & Hyes).
  destruct (Hyes eq_refl) as (_ & _ & Hok).
  exact (Hok eq_refl ltac:(discriminate)).
Defined.

(** X13: the edge of a process whose size is not positive: [WorstFit] never
    fails for it, so on a memory without a free cell [AllocateWorstFit] hands
    the start -1 to [Allocate], and a process that is not allocated gets the
    [NegativeStart] error. *)
Theorem AllocateWorstFit_nonpositive_full (st : State) (l : loc) :
  valid_len (mem st) ->
  SizeInKB (heap st l) <= 0 ->
  IsAllocated (heap st l) = false ->
  (forall i, cell (mem st) i <> Some None) ->
  AllocateWorstFit st (Some l) = Ret (st, Some NegativeStart).
Proof.
  intros Hvalid Hsz Ha Hfull. unfold AllocateWorstFit.
  destruct (WorstFit_best (mem st) (SizeInKB (heap st l)) Hvalid)
    as (bs & bsz & -> & _ & Hbest).
  destruct Hbest as [[-> ->] | [[Hl Hfree] _]].
  - destruct (Z.gtb_spec (SizeInKB (heap st l)) 0) as [? | _]; [lia |].
    by apply Allocate_bounds.
  - exfalso. apply (Hfull bs), Hfree. lia.
Qed.

Lemma AllocateWorstFit_nonpositive_full_witness :
  AllocateWorstFit (mkState [Some 1%nat] (fun _ => mkProcess "z" "Z" 0 false (-1)))
    (Some 0%nat)
  = Ret (mkState [Some 1%nat] (fun _ => mkProcess "z" "Z" 0 false (-1)),
         Some NegativeStart).
Proof.
  apply AllocateWorstFit_nonpositive_full.
  - unfold valid_len, len, GoInt.int_max. simpl. lia.
  - simpl. lia.
  - reflexivity.
  - intros i. unfold cell. simpl. destruct (0 <=? i); [| done].
    destruct (Z.to_nat i) as [| k]; [done | by destruct k].
Defined.

(** ** ReleaseProcess *)

Lemma get_Panic m i : cell m i = None -> get m i = Panic IndexOutOfRange.
Proof.
  unfold get, cell. destruct (Z.leb_spec 0 i); [| done].
  destruct (Z.ltb_spec i (len m)); [| done]. simpl. by intros ->.
Qed.

(** One turn of the loop of [ReleaseProcess], by the content of the cell. *)
Lemma Release_loop_step h l m b i n :
  Release_loop h l m b i (S n) =
  match cell m i with
  | Some (Some q) =>
      if String.eqb (ID (h q)) (ID (h l))
      then Release_loop h l (<[Z.to_nat i := None]> m) true (i +i 1) n
      else if b then Panic (CorruptedMemoryState (unsafe_delete h l q))
           else Ret (m, false, Some (unsafe_delete h l q))
  | Some None => Panic NilDereference
  | None => Panic IndexOutOfRange
  end.
Proof.
  destruct (cell m i) as [[q |] |] eqn:Hc.
  - destruct (String.eqb_spec (ID (h q)) (ID (h l))) as [Heq | Hne].
    + by apply Release_loop_match with q.
    + by apply Release_loop_mismatch.
  - by apply Release_loop_free.
  - simpl. by rewrite get_Panic.
Qed.

Lemma Release_loop_error h l n : forall m b i m' br e,
  Release_loop h l m b i n = Ret (m', br, Some e) ->
  b = false /\ m' = m /\ br = false.
Proof.
  induction n as [| n IH]; intros m b i m' br e; [done |].
  rewrite Release_loop_step. destruct (cell m i) as [[q |] |]; try done.
  destruct (String.eqb (ID (h q)) (ID (h l))).
  - intros H. by apply IH in H as [? _].
  - destruct b; [done |]. by intros [= <- <- _].
Qed.

Lemma Release_loop_success h l n : forall m b i m' br,
  0 <= i -> GoInt.in_range (i + Z.of_nat n) ->
  Release_loop h l m b i n = Ret (m', br, None) ->
  len m' = len m /\ br = b || negb (Nat.eqb n 0) /\
  (forall j, i <= j < i + Z.of_nat n ->
     cell m' j = Some None /\
     exists q, cell m j = Some (Some q) /\ ID (h q) = ID (h l)) /\
  (forall j, ~ i <= j < i + Z.of_nat n -> cell m' j = cell m j).
Proof.
  induction n as [| n IH]; intros m b i m' br Hi Hrange.
  - simpl. intros [= <- <-]. rewrite orb_false_r.
    split; [done |]. split; [done |]. split; [lia | done].
  - rewrite Release_loop_step.
    destruct (cell m i) as [[q |] |] eqn:Hc; try done.
    pose proof (cell_lt_len _ _ _ Hc) as Hlt.
    destruct (String.eqb_spec (ID (h q)) (ID (h l))) as [Heq | Hne];
      [| by destruct b].
    rewrite (succ_small i (i + Z.of_nat (S n))); [| lia | done].
    intros HR. apply IH in HR as (Hl & Hbr & Hin & Hout); [| lia |].
    2:{ by replace (i + 1 + Z.of_nat n) with (i + Z.of_nat (S n)) by lia. }
    rewrite len_insert in Hl. simpl. rewrite orb_true_r.
    split; [done |]. split; [done |]. split.
    + intros j Hj. destruct (Z.eq_dec j i) as [-> | Hji].
      * rewrite Hout by lia. rewrite cell_insert_eq by lia. eauto.
      * destruct (Hin j) as (Hj1 & q' & Hq' & Hid); [lia |].
        rewrite cell_insert_ne in Hq' by lia. eauto.
    + intros j Hj. rewrite Hout by lia. apply cell_insert_ne; lia.
Qed.

Lemma Release_loop_index_safe h l n : forall m b i,
  0 <= i -> i + Z.of_nat n <= len m -> GoInt.in_range (i + Z.of_nat n) ->
  Release_loop h l m b i n <> Panic IndexOutOfRange.
Proof.
  induction n as [| n IH]; intros m b i Hi Hlen Hrange; [done |].
  rewrite Release_loop_step.
  destruct (cell_is_Some m i) as [c Hc]; [lia |]. rewrite Hc.
  destruct c as [q |]; [| done].
  destruct (String.eqb (ID (h q)) (ID (h l))); [| by destruct b].
  rewrite (succ_small i (i + Z.of_nat (S n))); [| lia | done].
  apply IH; [lia | rewrite len_insert; lia |].
  by replace (i + 1 + Z.of_nat n) with (i + Z.of_nat (S n)) by lia.
Qed.

Lemma trips_cases start stop :
  GoInt.in_range stop -> 0 <= start ->
  (stop <= start /\ trips start stop = 0%nat) \/
  (start < stop /\ start + Z.of_nat (trips start stop) = stop).
Proof.
  intros _ _. unfold trips.
  destruct (Z.le_gt_cases stop start); [left | right]; lia.
Qed.

(** X14: whenever [ReleaseProcess] returns an error, the state it returns is
    the state it was given and the flag is false: nothing has been
    mutated. *)
Theorem ReleaseProcess_error_unchanged (st : State) (p : option loc)
    (st1 : State) (b : bool) (e : error) :
  ReleaseProcess st p = Ret (st1, b, Some e) -> st1 = st /\ b = false.
Proof.
  destruct p as [l |]; [| done]. unfold ReleaseProcess. simpl.
  destruct (checkBounds _ _ _); [by intros [= <- <- _] |].
  destruct (String.eqb _ _); [by intros [= <- <- _] |].
  destruct (Release_loop _ _ _ _ _ _) as [[[m' br] [e' |]] | pn] eqn:HL;
    simpl; [| done | done].
  intros [= <- <- _]. apply Release_loop_error in HL as (_ & -> & _).
  by destruct st.
Qed.

Lemma ReleaseProcess_error_unchanged_witness :
  Examples.stale_start = Examples.stale_start /\ false = false.
Proof.
  apply (ReleaseProcess_error_unchanged Examples.stale_start (Some 0%nat)
           Examples.stale_start false
           (UnsafeDelete "b" "a" 0 2)).
  reflexivity.
Defined.

(** What is known when [ReleaseProcess] has returned without an error. *)
Lemma ReleaseProcess_Ret_None st l st1 b :
  ReleaseProcess st (Some l) = Ret (st1, b, None) ->
  let a := MemoryAddress (heap st l) in
  let stop := a +i SizeInKB (heap st l) in
  0 <= a /\ stop <= len (mem st) /\ ID (heap st l) <> EmptyString /\
  heap st1 = <[l := set_allocation (heap st l) false (-1)]> (heap st) /\
  len (mem st1) = len (mem st) /\
  (b = true <-> a < stop) /\
  (forall j, a <= j < stop ->
     cell (mem st1) j = Some None /\
     exists q, cell (mem st) j = Some (Some q) /\
               ID (heap st q) = ID (heap st l)) /\
  (forall j, ~ a <= j < stop -> cell (mem st1) j = cell (mem st) j).
Proof.
  intros HR a stop.
  destruct (checkBounds (mem st) a (SizeInKB (heap st l))) as [e |] eqn:Hb.
  { by rewrite (ReleaseProcess_bounds _ _ e) in HR. }
  destruct (String.eqb_spec (ID (heap st l)) EmptyString) as [Hempty | Hid].
  { by rewrite ReleaseProcess_no_ID in HR. }
  rewrite (ReleaseProcess_loop _ _ Hb Hid) in HR. fold a stop in HR.
  apply checkBounds_None in Hb as [Ha Hstop]. fold stop in Hstop.
  assert (GoInt.in_range stop) as Hrange by apply wrap_in_range.
  destruct (Release_loop _ _ _ _ _ _) as [[[m' br] [e' |]] | pn] eqn:HL;
    simpl in HR; [done | | done].
  injection HR as <- <-. cbn [mem heap].
  split; [done |]. split; [done |]. split; [done |]. split; [done |].
  destruct (trips_cases a stop Hrange Ha) as [[Hle Ht] | [Hlt Ht]].
  - rewrite Ht in HL. simpl in HL. injection HL as <- <-.
    split; [done |]. split; [split; [done | lia] |]. split; [lia | done].
  - apply Release_loop_success in HL as (Hl & Hbr & Hin & Hout);
      [| done | by rewrite Ht].
    rewrite Ht in Hin, Hout. split; [done |]. split; [| done].
    simpl in Hbr. rewrite Hbr.
    destruct (Nat.eqb_spec (trips a stop) 0) as [H0 | _]; [lia |].
    simpl. split; [done | done].
Qed.

(** X15: when [ReleaseProcess] returns without an error, every cell of the
    recorded range was owned by a process carrying the ID of the released one
    and is free afterwards, every other cell and every other process is
    untouched, the process keeps its ID, name and size and is marked not
    allocated at address -1, and the flag returned is true exactly when the
    range had a cell. *)
Theorem ReleaseProcess_success (st : State) (l : loc) (st1 : State) (b : bool) :
  ReleaseProcess st (Some l) = Ret (st1, b, None) ->
  let a := MemoryAddress (heap st l) in
  let stop := a +i SizeInKB (heap st l) in
  (forall j, a <= j < stop ->
     cell (mem st1) j = Some None /\
     exists q, cell (mem st) j = Some (Some q) /\
               ID (heap st q) = ID (heap st l)) /\
  (forall j, ~ a <= j < stop -> cell (mem st1) j = cell (mem st) j) /\
  (forall q, q <> l -> heap st1 q = heap st q) /\
  heap st1 l = set_allocation (heap st l) false (-1) /\
  (b = true <-> a < stop).
Proof.
  intros HR a stop.
  destruct (ReleaseProcess_Ret_None _ _ _ _ HR)
    as (_ & _ & _ & Hheap & _ & Hb & Hin & Hout).
  split; [done |]. split; [done |]. rewrite Hheap. split; [| split; [| done]].
  - intros q Hq. by apply fn_lookup_insert_ne.
  - apply fn_lookup_insert.
Qed.

Lemma ReleaseProcess_success_witness :
  exists st1 b,
    ReleaseProcess Examples.one_owned (Some 0%nat) = Ret (st1, b, None) /\
    (forall j, 0 <= j < 0 +i 1 ->
       cell (mem st1) j = Some None /\
       exists q, cell (mem Examples.one_owned) j = Some (Some q) /\
                 ID (heap Examples.one_owned q)
                 = ID (heap Examples.one_owned 0%nat)) /\
    (forall j, ~ 0 <= j < 0 +i 1 ->
       cell (mem st1) j = cell (mem Examples.one_owned) j) /\
    (forall q, q <> 0%nat -> heap st1 q = heap Examples.one_owned q) /\
    heap st1 0%nat = set_allocation (heap Examples.one_owned 0%nat) false (-1) /\
    (b = true <-> 0 < 0 +i 1).
Proof.
  eexists _, _. split; [reflexivity |].
  apply (ReleaseProcess_success Examples.one_owned 0%nat). reflexivity.
Defined.

(** X16: after a [ReleaseProcess] that returned without an error, a second
    [ReleaseProcess] of the same process returns the [NegativeStart] error
    and changes nothing: the first one left [MemoryAddress = -1]. *)
Theorem ReleaseProcess_twice (st : State) (l : loc) (st1 : State) (b : bool) :
  ReleaseProcess st (Some l) = Ret (st1, b, None) ->
  ReleaseProcess st1 (Some l) = Ret (st1, false, Some NegativeStart).
Proof.
  intros HR.
  destruct (ReleaseProcess_Ret_None _ _ _ _ HR) as (_ & _ & _ & Hheap & _).
  apply ReleaseProcess_bounds. rewrite Hheap, fn_lookup_insert. done.
Qed.

Lemma ReleaseProcess_twice_witness :
  exists st1,
    ReleaseProcess Examples.one_owned (Some 0%nat) = Ret (st1, true, None) /\
    ReleaseProcess st1 (Some 0%nat) = Ret (st1, false, Some NegativeStart).
Proof.
  eexists. split; [reflexivity |].
  apply (ReleaseProcess_twice Examples.one_owned 0%nat _ true). reflexivity.
Defined.

Lemma ReleaseProcess_no_index_panic (st : State) (p : option loc) :
  ReleaseProcess st p <> Panic IndexOutOfRange.
Proof.
  destruct p as [l |]; [| done]. unfold ReleaseProcess. simpl.
  destruct (checkBounds _ _ _) eqn:Hb; [done |].
  destruct (String.eqb _ _); [done |].
  apply checkBounds_None in Hb as [Ha Hstop].
  set (a := MemoryAddress (heap st l)) in *.
  set (stop := a +i SizeInKB (heap st l)) in *.
  assert (GoInt.in_range stop) as Hrange by apply wrap_in_range.
  pose proof (Release_loop_index_safe (heap st) l (trips a stop) (mem st)
                false a Ha) as Hsafe.
  destruct (trips_cases a stop Hrange Ha) as [[Hle Ht] | [Hlt Ht]].
  - rewrite Ht. done.
  - rewrite Ht in Hsafe. specialize (Hsafe Hstop Hrange).
    destruct (Release_loop _ _ _ _ _ _) as [[[m' br] [e' |]] | pn];
      simpl; congruence.
Qed.

(** X17: [ReleaseProcess] never indexes the slice out of range: the bounds
    check it starts with covers every cell its loop reads or writes.  It
    returns, or it panics on a nil pointer (a nil process, a free cell in the
    range), or by its own [panic]. *)
Theorem ReleaseProcess_index_safe (st : State) (p : option loc) :
  (exists r, ReleaseProcess st p = Ret r) \/
  ReleaseProcess st p = Panic NilDereference \/
  (exists e, ReleaseProcess st p = Panic (CorruptedMemoryState e)).
Proof.
  pose proof (ReleaseProcess_no_index_panic st p) as Hsafe.
  destruct (ReleaseProcess st p) as [r | [| | e]]; eauto. done.
Qed.

(** ** Layout *)

Lemma tiles_total_size st L : forall from to,
  tiles st from L to -> total_size L = to - from.
Proof.
  induction L as [| b L IH]; intros from to; simpl.
  - lia.
  - intros (_ & _ & _ & _ & Hrest). rewrite (IH _ _ Hrest). lia.
Qed.

Lemma tiles_sizes_positive st L : forall from to,
  tiles st from L to -> Forall (fun b => 1 <= Size b) L.
Proof.
  induction L as [| b L IH]; intros from to; simpl; [constructor |].
  intros (_ & Hsz & _ & _ & Hrest). constructor; [done | by eapply IH].
Qed.

Lemma total_size_ge_length L :
  Forall (fun b => 1 <= Size b) L -> Z.of_nat (length L) <= total_size L.
Proof.
  induction 1 as [| b L Hb HL IH]; simpl total_size; simpl length; lia.
Qed.

(** X18: the blocks [Layout] returns are non-empty and their sizes add up to
    the length of the address space; so there are at most that many. *)
Theorem Layout_sizes_cover (st : State) :
  valid_len (mem st) ->
  exists L,
    Layout st = Ret L /\
    Forall (fun b => 1 <= Size b) L /\
    total_size L = len (mem st) /\
    Z.of_nat (length L) <= len (mem st).
Proof.
  intros Hvalid. destruct (Layout_tiles st Hvalid) as (L & HL & Ht).
  pose proof (tiles_sizes_positive _ _ _ _ Ht) as Hpos.
  pose proof (tiles_total_size _ _ _ _ Ht) as Hsum.
  pose proof (total_size_ge_length _ Hpos).
  exists L. split; [done |]. split; [done |]. split; lia.
Qed.

Lemma Layout_sizes_cover_witness :
  exists L,
    Layout Examples.stale_tail = Ret L /\
    Forall (fun b => 1 <= Size b) L /\
    total_size L = len (mem Examples.stale_tail) /\
    Z.of_nat (length L) <= len (mem Examples.stale_tail).
Proof.
  apply (Layout_sizes_cover Examples.stale_tail).
  unfold valid_len, len, GoInt.int_max. simpl. lia.
Defined.

(** X19: on an address space of [n > 0] cells that are all free, [Layout]
    returns the single block that starts at 0, has size [n] and carries the
    free marker. *)
Theorem Layout_all_free (n : nat) (h : Heap) :
  (0 < n)%nat -> Z.of_nat n <= GoInt.int_max ->
  Layout (all_free_state n h) = Ret [mkBlock 0 (Z.of_nat n) FREE_BLOCK].
Proof.
  intros Hn Hmax. set (st := all_free_state n h).
  assert (len (mem st) = Z.of_nat n) as Hlen.
  { unfold st, all_free_state, len. simpl. by rewrite length_replicate. }
  assert (forall i c, cell (mem st) i = Some c -> c = None) as Hfree.
  { intros i c. apply cell_replicate_None. }
  destruct (Layout_tiles st) as (L & -> & Ht).
  { unfold valid_len. by rewrite Hlen. }
  rewrite Hlen in Ht. f_equal.
  destruct L as [| b rest]; simpl in Ht; [lia |].
  destruct Ht as (Hs & Hsz & (c & Hc & Hname) & _ & Hrest).
  assert (c = None) as -> by (apply (Hfree 0), Hc; lia).
  destruct rest as [| b' rest']; simpl in Hrest.
  - destruct b as [s z nm]. cbn [Start Size BlockName owner_name] in *.
    subst s nm. by replace z with (Z.of_nat n) by lia.
  - exfalso.
    destruct Hrest as (_ & Hsz' & (c' & Hc' & _) & Hch & _).
    assert (0 + Size b <= 0 + Size b < 0 + Size b + Size b') as Hi by lia.
    pose proof (Hc' _ Hi) as H1.
    pose proof (Hfree _ _ H1) as ->.
    assert (0 <= 0 + Size b - 1 < 0 + Size b) as Hi' by lia.
    pose proof (Hc _ Hi') as H2.
    destruct Hch as [? | Hch]; [lia |]. apply Hch.
    exact (eq_trans H2 (eq_sym H1)).
Qed.

Lemma Layout_all_free_witness :
  Layout (all_free_state 10 ScenarioA.procs)
  = Ret [mkBlock 0 (Z.of_nat 10) FREE_BLOCK].
Proof.
  apply (Layout_all_free 10 ScenarioA.procs); [lia | unfold GoInt.int_max; lia].
Defined.

Lemma free_cells_drop_uniform n : forall (m : Memory) from c,
  0 <= from ->
  (forall i, from <= i < from + Z.of_nat n -> cell m i = Some c) ->
  free_cells (drop (Z.to_nat from) m) =
  is_free c * Z.of_nat n + free_cells (drop (Z.to_nat (from + Z.of_nat n)) m).
Proof.
  induction n as [| n IH]; intros m from c Hfrom Hc.
  - rewrite Z.add_0_r. lia.
  - assert (cell m from = Some c) as H0 by (apply Hc; lia).
    apply cell_Some in H0 as [_ H0].
    rewrite (drop_S _ _ _ H0).
    replace (S (Z.to_nat from)) with (Z.to_nat (from + 1)) by lia.
    assert (free_cells (c :: drop (Z.to_nat (from + 1)) m) =
            is_free c + free_cells (drop (Z.to_nat (from + 1)) m)) as ->.
    { destruct c; simpl; lia. }
    rewrite (IH m (from + 1) c); [| lia |].
    + replace (from + 1 + Z.of_nat n) with (from + Z.of_nat (S n)) by lia. lia.
    + intros i Hi. apply Hc. lia.
Qed.

Lemma tiles_free_size st L : forall from to,
  (forall i q, cell (mem st) i = Some (Some q) ->
     Name (heap st q) <> FREE_BLOCK) ->
  0 <= from -> tiles st from L to ->
  free_cells (drop (Z.to_nat from) (mem st)) =
  free_size L + free_cells (drop (Z.to_nat to) (mem st)).
Proof.
  induction L as [| b L IH]; intros from to Hnames Hfrom; simpl.
  - intros ->. lia.
  - intros (Hs & Hsz & (c & Hc & Hname) & _ & Hrest).
    assert (0 <= from + Size b) as Hfrom' by lia.
    rewrite <- Z.add_assoc, <- (IH _ _ Hnames Hfrom' Hrest).
    rewrite (free_cells_drop_uniform (Z.to_nat (Size b)) (mem st) from c);
      rewrite ?Z2Nat.id by lia; [| done | done].
    rewrite Hname. destruct c as [q |]; simpl owner_name; simpl is_free.
    + assert (cell (mem st) from = Some (Some q)) as Hq by (apply Hc; lia).
      apply Hnames in Hq. apply String.eqb_neq in Hq. rewrite Hq. lia.
    + rewrite String.eqb_refl. lia.
Qed.

(** X20: when no owner of a cell is named like the free marker, the sizes of
    the blocks of [Layout] that carry the free marker add up to
    [TotalFree]. *)
Theorem Layout_free_size (st : State) :
  valid_len (mem st) ->
  (forall i q, cell (mem st) i = Some (Some q) ->
     Name (heap st q) <> FREE_BLOCK) ->
  exists L, Layout st = Ret L /\ free_size L = TotalFree (mem st).
Proof.
  intros Hvalid Hnames. destruct (Layout_tiles st Hvalid) as (L & HL & Ht).
  exists L. split; [done |]. rewrite TotalFree_free_cells by done.
  pose proof (tiles_free_size st L 0 (len (mem st)) Hnames (Z.le_refl 0) Ht)
    as H.
  change (Z.to_nat 0) with 0%nat in H. rewrite drop_0 in H.
  unfold len in H. rewrite Nat2Z.id, drop_all in H.
  change (free_cells []) with 0 in H. lia.
Qed.

Lemma Layout_free_size_witness :
  exists L,
    Layout (all_free_state 10 ScenarioA.procs) = Ret L /\
    free_size L = TotalFree (mem (all_free_state 10 ScenarioA.procs)).
Proof.
  apply (Layout_free_size (all_free_state 10 ScenarioA.procs)).
  - unfold valid_len, len, GoInt.int_max. simpl. lia.
  - intros i q Hc. by apply cell_replicate_None in Hc.
Defined.

(** ** States reached from the all-free address space *)

Lemma ScenarioA_hypotheses :
  List.NoDup [0; 1]%nat /\
  (forall l1 l2, In l1 [0; 1]%nat -> In l2 [0; 1]%nat ->
     ID (ScenarioA.procs l1) = ID (ScenarioA.procs l2) -> l1 = l2) /\
  (forall l, In l [0; 1]%nat -> 0 < SizeInKB (ScenarioA.procs l)) /\
  (forall l, In l [0; 1]%nat -> IsAllocated (ScenarioA.procs l) = false) /\
  (forall l, In l [0; 1]%nat -> MemoryAddress (ScenarioA.procs l) = -1) /\
  Z.of_nat 10 <= GoInt.int_max /\
  Forall (op_ok [0; 1]%nat ScenarioA.procs)
    [OpAllocate 0%nat 0; OpAllocateWorstFit 1%nat; OpReleaseProcess 0%nat].
Proof.
  split; [repeat constructor; simpl; intuition discriminate |].
  split; [intros l1 l2 [<- | [<- | []]] [<- | [<- | []]];
          (done || discriminate) |].
  split; [intros l [<- | [<- | []]]; reflexivity |].
  split; [intros l [<- | [<- | []]]; reflexivity |].
  split; [intros l [<- | [<- | []]]; reflexivity |].
  split; [unfold GoInt.int_max; lia |].
  repeat constructor; simpl; auto;
    unfold GoInt.in_range, GoInt.int_min, GoInt.int_max; lia.
Defined.

Lemma reachable_conservation_witness :
  exists st,
    run (all_free_state 10 ScenarioA.procs)
      [OpAllocate 0%nat 0; OpAllocateWorstFit 1%nat; OpReleaseProcess 0%nat]
      = Some st /\
    TotalFree (mem st) + allocated_total [0; 1]%nat (heap st) = Z.of_nat 10 /\
    len (mem st) = Z.of_nat 10.
Proof.
  destruct ScenarioA_hypotheses as (H1 & H2 & H3 & H4 & _ & H5 & H6).
  eexists. split; [reflexivity |].
  exact (reachable_conservation [0; 1]%nat ScenarioA.procs 10
           H1 H2 H3 H4 H5 _ _ H6 eq_refl).
Defined.

Lemma reachable_exclusive_witness :
  exists st,
    run (all_free_state 10 ScenarioA.procs)
      [OpAllocate 0%nat 0; OpAllocateWorstFit 1%nat; OpReleaseProcess 0%nat]
      = Some st /\
    len (mem st) = Z.of_nat 10 /\
    (forall i q, cell (mem st) i = Some (Some q) ->
       In q [0; 1]%nat /\ IsAllocated (heap st q) = true) /\
    (forall l, In l [0; 1]%nat -> IsAllocated (heap st l) = true ->
       0 <= MemoryAddress (heap st l) /\
       MemoryAddress (heap st l) + SizeInKB (heap st l) <= Z.of_nat 10 /\
       forall i, cell (mem st) i = Some (Some l) <->
                 MemoryAddress (heap st l) <= i
                   < MemoryAddress (heap st l) + SizeInKB (heap st l)) /\
    (forall l1 l2 i, In l1 [0; 1]%nat -> In l2 [0; 1]%nat ->
       IsAllocated (heap st l1) = true -> IsAllocated (heap st l2) = true ->
       ID (heap st l1) <> ID (heap st l2) ->
       MemoryAddress (heap st l1) <= i
         < MemoryAddress (heap st l1) + SizeInKB (heap st l1) ->
       MemoryAddress (heap st l2) <= i
         < MemoryAddress (heap st l2) + SizeInKB (heap st l2) ->
       False).
Proof.
  destruct ScenarioA_hypotheses as (H1 & H2 & H3 & H4 & _ & H5 & H6).
  eexists. split; [reflexivity |].
  exact (reachable_exclusive [0; 1]%nat ScenarioA.procs 10
           H1 H2 H3 H4 H5 _ _ H6 eq_refl).
Defined.

(** An [AllocateWorstFit] that succeeded is an [Allocate] that succeeded. *)
Lemma AllocateWorstFit_is_Allocate st l st1 :
  AllocateWorstFit st (Some l) = Ret (st1, None) ->
  exists start, Allocate st (Some l) start = Ret (st1, None).
Proof.
  unfold AllocateWorstFit.
  destruct (WorstFit _ _) as [[start found] [e |]]; [done | eauto].
Qed.

Section Reached.

Variable ps : list loc.
Variable h0 : Heap.
Variable n : nat.

Hypothesis ps_nodup : List.NoDup ps.
Hypothesis unique_IDs :
  forall l1 l2, In l1 ps -> In l2 ps -> ID (h0 l1) = ID (h0 l2) -> l1 = l2.
Hypothesis positive_sizes : forall l, In l ps -> 0 < SizeInKB (h0 l).
Hypothesis none_allocated : forall l, In l ps -> IsAllocated (h0 l) = false.
Hypothesis fresh_addresses : forall l, In l ps -> MemoryAddress (h0 l) = -1.
Hypothesis n_small : Z.of_nat n <= GoInt.int_max.

Lemma bookkeeping_step st o st1 :
  bookkeeping ps (heap st) -> step st o = Some st1 -> bookkeeping ps (heap st1).
Proof.
  intros Hbk Hstep.
  assert ((exists l start, Allocate st (Some l) start = Ret (st1, None)) \/
          (exists l b, ReleaseProcess st (Some l) = Ret (st1, b, None)))
    as [(l & start & HA) | (l & b & HR)].
  { destruct o as [l start | l | l]; unfold step in Hstep.
    - destruct (Allocate st (Some l) start) as [[st' [e |]] | p] eqn:HA;
        try done. injection Hstep as <-. left. eauto.
    - destruct (AllocateWorstFit st (Some l)) as [[st' [e |]] | p] eqn:HA;
        try done. injection Hstep as <-. left.
      destruct (AllocateWorstFit_is_Allocate _ _ _ HA) as [start ?]. eauto.
    - destruct (ReleaseProcess st (Some l)) as [[[st' b] [e |]] | p] eqn:HR;
        try done. injection Hstep as <-. right. eauto. }
  - destruct (Allocate_Ret_None _ _ _ _ HA) as (_ & _ & _ & Hid & -> & _).
    intros l' Hl'. destruct (decide (l = l')) as [<- | Hne].
    + rewrite fn_lookup_insert. simpl. split; [done | done].
    + rewrite fn_lookup_insert_ne by done. by apply Hbk.
  - destruct (ReleaseProcess_Ret_None _ _ _ _ HR) as (_ & _ & _ & -> & _).
    intros l' Hl'. destruct (decide (l = l')) as [<- | Hne].
    + rewrite fn_lookup_insert. simpl. split; [done | done].
    + rewrite fn_lookup_insert_ne by done. by apply Hbk.
Qed.

Lemma bookkeeping_run ops : forall st st1,
  bookkeeping ps (heap st) -> run st ops = Some st1 -> bookkeeping ps (heap st1).
Proof.
  induction ops as [| o ops IH]; intros st st1 Hbk Hrun; simpl in Hrun.
  - by injection Hrun as <-.
  - destruct (step st o) as [st' |] eqn:Hstep; [| done].
    apply (IH st'); [by apply (bookkeeping_step st o) | done].
Qed.

(** X23: in a state reached from the all-free address space by operations
    that returned without error (no [Allocate] start overflowing, processes
    with distinct IDs, positive sizes, not allocated and at address -1 at the
    start), [ReleaseProcess] of a process of the simulation never panics: it
    succeeds with [true] on an allocated process, and on one that is not
    allocated it returns the [NegativeStart] error and changes nothing. *)
Theorem reachable_ReleaseProcess ops st l :
  Forall (op_ok ps h0) ops ->
  run (all_free_state n h0) ops = Some st ->
  In l ps ->
  (IsAllocated (heap st l) = true ->
     exists st1, ReleaseProcess st (Some l) = Ret (st1, true, None)) /\
  (IsAllocated (heap st l) = false ->
     ReleaseProcess st (Some l) = Ret (st, false, Some NegativeStart)).
Proof.
  intros Hok Hrun Hl.
  assert (inv ps h0 (Z.of_nat n) st) as [Hlen Hid Hown Hrng Hcnt].
  { apply (inv_run ps h0 n) with (ops := ops) (st := all_free_state n h0);
      try done. by apply inv_init. }
  assert (bookkeeping ps (heap st)) as Hbk.
  { apply (bookkeeping_run ops (all_free_state n h0)); [| done].
    intros l' Hl'. simpl. split; [by auto |].
    intros Ha. by rewrite none_allocated in Ha. }
  destruct (Hbk l Hl) as [Hfree Hhas]. split.
  - intros Ha. destruct (Hrng l Hl Ha) as (H0 & HN & Hcells).
    destruct (Hid l) as (_ & _ & Hsz).
    pose proof (positive_sizes l Hl) as Hpos.
    destruct (ReleaseProcess_owned st l) as (m' & HR & _);
      [done | lia | lia | | by apply Hhas | |].
    + unfold GoInt.in_range, GoInt.int_min, GoInt.int_max in *. lia.
    + intros j Hj. exists l. split; [by apply Hcells | done].
    + rewrite HR.
      destruct (Z.eqb_spec (SizeInKB (heap st l)) 0) as [? | _]; [lia |].
      eauto.
  - intros Ha. apply ReleaseProcess_bounds. by rewrite (Hfree Ha).
Qed.

End Reached.

Lemma reachable_ReleaseProcess_witness :
  exists st,
    run (all_free_state 10 ScenarioA.procs)
      [OpAllocate 0%nat 0; OpAllocateWorstFit 1%nat; OpReleaseProcess 0%nat]
      = Some st /\
    (IsAllocated (heap st 1%nat) = true ->
       exists st1, ReleaseProcess st (Some 1%nat) = Ret (st1, true, None)) /\
    (IsAllocated (heap st 1%nat) = false ->
       ReleaseProcess st (Some 1%nat) = Ret (st, false, Some NegativeStart)).
Proof.
  destruct ScenarioA_hypotheses as (H1 & H2 & H3 & H4 & H4' & H5 & H6).
  eexists. split; [reflexivity |].
  refine (reachable_ReleaseProcess [0; 1]%nat ScenarioA.procs 10
           H1 H2 H3 H4 H4' H5 _ _ 1%nat H6 eq_refl _).
  simpl. auto.
Defined.

(** ** The memory picture *)

Lemma string_length_append (s1 s2 : string) :
  String.length (s1 ++ s2) = (String.length s1 + String.length s2)%nat.
Proof. induction s1 as [| a s1 IH]; simpl; [done | by rewrite IH]. Qed.

Lemma string_get_append_l (s1 s2 : string) k :
  (k < String.length s1)%nat ->
  String.get k (s1 ++ s2) = String.get k s1.
Proof. intros H. symmetry. by apply append_correct1. Qed.

Lemma string_get_append_r (s1 s2 : string) k :
  String.get (String.length s1 + k) (s1 ++ s2) = String.get k s2.
Proof. rewrite Nat.add_comm. symmetry. apply append_correct2. Qed.

(** From here on [lia] also reasons about division and remainder by 10. *)
Ltac Zify.zify_post_hook ::= Z.div_mod_to_equations.

(** What the picture holds once [k] cells have been drawn. *)
Definition drawn (m : Memory) (k : Z) (acc : string) : Prop :=
  Z.of_nat (String.length acc) = k + (k + 9) / 10 /\
  (forall i c, 0 <= i < k -> cell m i = Some c ->
     String.get (mark_position i) acc = String.get 0 (mark c)) /\
  (forall r, 0 <= r -> 10 * r < k ->
     String.get (Z.to_nat (11 * r)) acc = String.get 0 newline).

Lemma drawn_step m k c acc :
  0 <= k -> cell m k = Some c -> drawn m k acc ->
  drawn m (k + 1)
    ((if Z.rem k 10 =? 0 then (acc ++ newline)%string else acc) ++ mark c).
Proof.
  intros Hk Hc (Hlen & Hmarks & Hbreaks).
  rewrite Z.rem_mod_nonneg by lia.
  assert (String.length (mark c) = 1%nat) as Hm by (by destruct c).
  assert (forall i, 0 <= i < k ->
            (mark_position i < String.length acc)%nat) as Hold.
  { intros i Hi. unfold mark_position. lia. }
  assert (forall r, 0 <= r -> 10 * r < k ->
            (Z.to_nat (11 * r) < String.length acc)%nat) as Hold'.
  { intros r Hr Hrk. lia. }
  destruct (Z.eqb_spec (k mod 10) 0) as [Hdiv | Hndiv].
  - assert (Z.of_nat (String.length acc) = k + k / 10) as Hlen' by lia.
    split; [| split].
    + rewrite !string_length_append, Hm. simpl String.length. lia.
    + intros i c' Hi Hc'. destruct (Z.eq_dec i k) as [-> | Hne].
      * assert (c' = c) as -> by congruence.
        replace (mark_position k)
          with (String.length (acc ++ newline) + 0)%nat.
        2:{ rewrite string_length_append. unfold mark_position.
            simpl String.length. lia. }
        apply string_get_append_r.
      * rewrite string_get_append_l.
        2:{ rewrite string_length_append. specialize (Hold i). lia. }
        rewrite string_get_append_l by (apply Hold; lia).
        apply Hmarks; [lia | done].
    + intros r Hr Hrk. destruct (Z.eq_dec (10 * r) k) as [Heq | Hne].
      * rewrite string_get_append_l.
        2:{ rewrite string_length_append. simpl String.length. lia. }
        replace (Z.to_nat (11 * r)) with (String.length acc + 0)%nat by lia.
        apply string_get_append_r.
      * rewrite string_get_append_l.
        2:{ rewrite string_length_append. specialize (Hold' r). lia. }
        rewrite string_get_append_l by (apply Hold'; lia).
        apply Hbreaks; lia.
  - assert (Z.of_nat (String.length acc) = k + k / 10 + 1) as Hlen' by lia.
    split; [| split].
    + rewrite string_length_append, Hm. lia.
    + intros i c' Hi Hc'. destruct (Z.eq_dec i k) as [-> | Hne].
      * assert (c' = c) as -> by congruence.
        replace (mark_position k) with (String.length acc + 0)%nat
          by (unfold mark_position; lia).
        apply string_get_append_r.
      * rewrite string_get_append_l by (apply Hold; lia).
        apply Hmarks; [lia | done].
    + intros r Hr Hrk.
      rewrite string_get_append_l by (apply Hold'; lia).
      apply Hbreaks; lia.
Qed.

Lemma drawn_loop m rest : forall k acc,
  0 <= k <= len m -> drop (Z.to_nat k) m = rest -> drawn m k acc ->
  drawn m (len m) (memString_loop rest k acc).
Proof.
  induction rest as [| c rest IH]; intros k acc Hk Hdrop Hd;
    cbn [memString_loop].
  - by rewrite <- (drop_all_len m k).
  - destruct (cell_drop _ _ _ _ (proj1 Hk) Hdrop) as (Hc & Hdrop' & Hlt).
    apply IH; [lia | done |]. apply drawn_step; [lia | done | done].
Qed.

(** X24: the memory picture has one mark per cell and a line break before
    every tenth cell: its length is [N + ceil(N/10)], the mark of cell [i]
    is the character at position [i + i/10 + 1], ["X"] for an occupied cell
    and ["-"] for a free one, and the character at position [11 r] is the
    line break that opens row [r]. *)
Theorem memString_picture (m : Memory) :
  Z.of_nat (String.length (memString m)) = len m + (len m + 9) / 10 /\
  (forall i c, cell m i = Some c ->
     String.get (mark_position i) (memString m) = String.get 0 (mark c)) /\
  (forall r, 0 <= r -> 10 * r < len m ->
     String.get (Z.to_nat (11 * r)) (memString m) = String.get 0 newline).
Proof.
  assert (drawn m (len m) (memString m)) as (Hlen & Hmarks & Hbreaks).
  { apply (drawn_loop m m 0 EmptyString); [unfold len; lia | done |].
    split; [done |]. split; intros; lia. }
  split; [done |]. split; [| done].
  intros i c Hc. apply Hmarks; [| done]. by apply cell_lt_len in Hc.
Qed.

(** ** TotalFree *)

Lemma free_cells_all m :
  free_cells m = len m <-> Forall (fun c => c = None) m.
Proof.
  induction m as [| c m IH]; [by split; [constructor |] |].
  assert (len (c :: m) = 1 + len m) as -> by (unfold len; simpl length; lia).
  pose proof (free_cells_bounds m) as Hb. split.
  - intros H. destruct c as [q |]; simpl in H; [lia |].
    constructor; [done |]. apply IH. lia.
  - intros H. inversion H as [| c' m' -> Hm]; subst. simpl.
    apply IH in Hm. lia.
Qed.

Lemma free_cells_none m :
  free_cells m = 0 <-> Forall (fun c => c <> None) m.
Proof.
  induction m as [| c m IH]; [by split; [constructor |] |].
  pose proof (free_cells_bounds m) as Hb. split.
  - intros H. destruct c as [q |]; simpl in H; [| lia].
    constructor; [done |]. by apply IH.
  - intros H. inversion H as [| c' m' Hc Hm]; subst.
    destruct c as [q |]; [| done]. simpl. by apply IH.
Qed.

Lemma Forall_cells (P : option loc -> Prop) (m : Memory) :
  Forall P m <-> forall i c, cell m i = Some c -> P c.
Proof.
  rewrite Forall_lookup. split.
  - intros H i c [_ Hc]%cell_Some. by apply (H (Z.to_nat i)).
  - intros H k c Hk. apply (H (Z.of_nat k)). apply cell_Some.
    split; [lia | by rewrite Nat2Z.id].
Qed.

(** X26: [TotalFree] lies between 0 and the length of the address space; it
    is the length exactly when every cell is free, and 0 exactly when none
    is. *)
Theorem TotalFree_bounds (m : Memory) :
  valid_len m ->
  0 <= TotalFree m <= len m /\
  (TotalFree m = len m <-> forall i c, cell m i = Some c -> c = None) /\
  (TotalFree m = 0 <-> forall i c, cell m i = Some c -> c <> None).
Proof.
  intros Hvalid. rewrite TotalFree_free_cells by done.
  split; [apply free_cells_bounds |]. split.
  - by rewrite free_cells_all, Forall_cells.
  - by rewrite free_cells_none, Forall_cells.
Qed.

Lemma TotalFree_bounds_witness :
  0 <= TotalFree [None; Some 0%nat] <= len [None; Some 0%nat] /\
  (TotalFree [None; Some 0%nat] = len [None; Some 0%nat] <->
   forall i c, cell [None; Some 0%nat] i = Some c -> c = None) /\
  (TotalFree [None; Some 0%nat] = 0 <->
   forall i c, cell [None; Some 0%nat] i = Some c -> c <> None).
Proof.
  apply (TotalFree_bounds [None; Some 0%nat]).
  unfold valid_len, len, GoInt.int_max. simpl. lia.
Defined.
